(** * RaylibOpOverloads.hpp: operator overloads for raylib value types

    A shallow embedding of the header [RaylibOpOverloads.hpp] and the
    properties its specification states about it.

    Conventions of the embedding:
    - an [unsigned char] colour channel is a [Z]; the conversion
      [(unsigned char)e] of an [int] is written out as [e mod 256];
    - a C++ [float] is an IEEE-754 binary32 value, a [double] a binary64
      value, both as [spec_float] with the operations of [SpecFloat] at
      precision 24/exponent 128 and precision 53/exponent 1024;
    - a local that the source declares without initialiser ([Color c;])
      holds whatever its storage held before: that content is an explicit
      argument [c0] of the operator;
    - an operator taking a reference it assigns through ([Vector2&]) is a
      function on a store of objects, returning the new store and the
      location it returns a reference to;
    - an operator that can [throw] returns a sum, together with the text it
      wrote to [std::cerr]. *)

From Stdlib Require Import ZArith Bool List String Ascii Lia SpecFloat DecimalString.
From stdpp Require Import gmap.
Import ListNotations.
Local Open Scope Z_scope.

(** ** Colours (raylib.h: [struct Color { unsigned char r, g, b, a; }]) *)

Record Color := mkColor {
  Color_r : Z;
  Color_g : Z;
  Color_b : Z;
  Color_a : Z
}.

Definition uchar_range (z : Z) : Prop := 0 <= z <= 255.

Definition valid_Color (c : Color) : Prop :=
  uchar_range (Color_r c) /\ uchar_range (Color_g c) /\
  uchar_range (Color_b c) /\ uchar_range (Color_a c).

(** [(unsigned char)e] for an [int] expression [e]: reduction modulo 2^8. *)
Definition cast_uchar (z : Z) : Z := z mod 256.

(** The four fields a statement [c.f = e;] can assign. *)
Inductive channel := ch_r | ch_g | ch_b | ch_a.

Definition get_channel (ch : channel) (c : Color) : Z :=
  match ch with
  | ch_r => Color_r c
  | ch_g => Color_g c
  | ch_b => Color_b c
  | ch_a => Color_a c
  end.

(** One field assignment [c.ch = v;]. *)
Definition assign (ch : channel) (v : Z) (c : Color) : Color :=
  match ch with
  | ch_r => mkColor v (Color_g c) (Color_b c) (Color_a c)
  | ch_g => mkColor (Color_r c) v (Color_b c) (Color_a c)
  | ch_b => mkColor (Color_r c) (Color_g c) v (Color_a c)
  | ch_a => mkColor (Color_r c) (Color_g c) (Color_b c) v
  end.

(** A straight-line sequence of field assignments, run in program order. *)
Definition exec (ws : list (channel * Z)) (c : Color) : Color :=
  fold_left (fun acc w => assign (fst w) (snd w) acc) ws c.

(** The fields a sequence of assignments writes. *)
Definition assigned (ws : list (channel * Z)) : list channel := map fst ws.

(** [Color operator+(const Color& a, const Color& b)]: the four assignments
    of its body, in order.  The last one targets [c.r], as the source does. *)
Definition operator_plus_Color_body (a b : Color) : list (channel * Z) :=
  let red := Color_r a + Color_r b in
  let green := Color_g a + Color_g b in
  let blue := Color_b a + Color_b b in
  let alpha := Color_a a + Color_a b in
  [ (ch_r, cast_uchar (if red >? 255 then 255 else red));
    (ch_g, cast_uchar (if green >? 255 then 255 else green));
    (ch_b, cast_uchar (if blue >? 255 then 255 else blue));
    (ch_r, cast_uchar (if alpha >? 255 then 255 else alpha)) ].

Definition operator_plus_Color (c0 a b : Color) : Color :=
  exec (operator_plus_Color_body a b) c0.

(** [Color operator-(const Color& a, const Color& b)]. *)
Definition operator_minus_Color_body (a b : Color) : list (channel * Z) :=
  let red := Color_r a - Color_r b in
  let green := Color_g a - Color_g b in
  let blue := Color_b a - Color_b b in
  let alpha := Color_a a - Color_a b in
  [ (ch_r, cast_uchar (if red <? 0 then 0 else red));
    (ch_g, cast_uchar (if green <? 0 then 0 else green));
    (ch_b, cast_uchar (if blue <? 0 then 0 else blue));
    (ch_r, cast_uchar (if alpha <? 0 then 0 else alpha)) ].

Definition operator_minus_Color (c0 a b : Color) : Color :=
  exec (operator_minus_Color_body a b) c0.

(** The nested ternary [(v>255)?255:(v<0)?0:v] on [int]. *)
Definition clamp_int (v : Z) : Z :=
  if v >? 255 then 255 else if v <? 0 then 0 else v.

(** [Color operator*(const Color& a, const Color& b)]. *)
Definition operator_mul_Color_Color_body (a b : Color) : list (channel * Z) :=
  let red := Color_r a * Color_r b in
  let green := Color_g a * Color_g b in
  let blue := Color_b a * Color_b b in
  let alpha := Color_a a * Color_a b in
  [ (ch_r, cast_uchar (clamp_int red));
    (ch_g, cast_uchar (clamp_int green));
    (ch_b, cast_uchar (clamp_int blue));
    (ch_r, cast_uchar (clamp_int alpha)) ].

Definition operator_mul_Color_Color (c0 a b : Color) : Color :=
  exec (operator_mul_Color_Color_body a b) c0.

(** ** Floating point (binary32 [float], binary64 [double]) *)

Definition float := spec_float.
Definition double := spec_float.

Definition fmul : float -> float -> float := SFmul 24 128.
Definition fsub : float -> float -> float := SFsub 24 128.
Definition fneg : float -> float := SFopp.
Definition fabs : float -> float := SFabs.
Definition fle : float -> float -> bool := SFleb.
Definition flt : float -> float -> bool := SFltb.
Definition fgt (x y : float) : bool := SFltb y x.

Definition is_nan (f : spec_float) : bool :=
  match f with S754_nan => true | _ => false end.

Definition is_zero (f : spec_float) : bool :=
  match f with S754_zero _ => true | _ => false end.

Definition is_finite (f : spec_float) : bool :=
  match f with S754_zero _ | S754_finite _ _ _ => true | _ => false end.

(** Conversion of an [int] to [float] (round to nearest even). *)
Definition float_of_int (z : Z) : float := binary_normalize 24 128 z 0 false.

(** Promotion [float] to [double] (exact) and conversion back (rounding). *)
Definition double_of_float (f : float) : double :=
  match f with
  | S754_finite s m e => binary_round 53 1024 s m e
  | _ => f
  end.

Definition float_of_double (d : double) : float :=
  match d with
  | S754_finite s m e => binary_round 24 128 s m e
  | _ => d
  end.

(** The [double] literals [0.0] and [1.0]. *)
Definition double_zero : double := S754_zero false.
Definition double_one : double := binary_normalize 53 1024 1 0 false.

(** [std::numeric_limits<float>::epsilon()], that is 2^-23. *)
Definition epsilon : float := S754_finite false 8388608 (-46).

(** Truncation toward zero of a finite floating-point value. *)
Definition Ztrunc_float (f : spec_float) : option Z :=
  match f with
  | S754_zero _ => Some 0
  | S754_finite s m e =>
      Some (cond_Zopp s (if e <? 0 then Zpos m / 2 ^ (- e) else Zpos m * 2 ^ e))
  | S754_infinity _ | S754_nan => None
  end.

(** [(unsigned char)f] for a [float] expression [f]: the value truncated
    toward zero when that fits the destination; the C++ standard leaves
    every other case (NaN, infinities, values out of range) undefined, which
    is [None] here. *)
Definition uchar_of_float (f : float) : option Z :=
  match Ztrunc_float f with
  | Some t => if (0 <=? t) && (t <=? 255) then Some t else None
  | None => None
  end.

(** The nested ternary [(v>255)?255:(v<0)?0:v] on [float]: the [int]
    literals are converted to [float], and so is the result. *)
Definition clamp_float (v : float) : float :=
  if fgt v (float_of_int 255) then float_of_int 255
  else if flt v (float_of_int 0) then float_of_int 0
  else v.

(** [Color operator*(const Color& a, const float b)]: [None] when one of
    the four conversions to [unsigned char] is undefined. *)
Definition operator_mul_Color_float_body (a : Color) (b : float)
  : option (list (channel * Z)) :=
  let red := fmul (float_of_int (Color_r a)) b in
  let green := fmul (float_of_int (Color_g a)) b in
  let blue := fmul (float_of_int (Color_b a)) b in
  let alpha := fmul (float_of_int (Color_a a)) b in
  match uchar_of_float (clamp_float red), uchar_of_float (clamp_float green),
        uchar_of_float (clamp_float blue), uchar_of_float (clamp_float alpha) with
  | Some vr, Some vg, Some vb, Some va =>
      Some [ (ch_r, vr); (ch_g, vg); (ch_b, vb); (ch_r, va) ]
  | _, _, _, _ => None
  end.

Definition operator_mul_Color_float (c0 a : Color) (b : float) : option Color :=
  match operator_mul_Color_float_body a b with
  | Some ws => Some (exec ws c0)
  | None => None
  end.

(** ** Vectors (raylib.h: [Vector2], [Vector3], [Vector4]) *)

Record Vector2 := mkVector2 { Vector2_x : float; Vector2_y : float }.
Record Vector3 := mkVector3 {
  Vector3_x : float; Vector3_y : float; Vector3_z : float }.
Record Vector4 := mkVector4 {
  Vector4_x : float; Vector4_y : float; Vector4_z : float; Vector4_w : float }.

Definition components2 (v : Vector2) : list float :=
  [Vector2_x v; Vector2_y v].
Definition components3 (v : Vector3) : list float :=
  [Vector3_x v; Vector3_y v; Vector3_z v].
Definition components4 (v : Vector4) : list float :=
  [Vector4_x v; Vector4_y v; Vector4_z v; Vector4_w v].

(** Modelled from the spec: raymath's [Vector2Scale] and [Vector3Scale],
    which the header calls and does not define ("vector times scalar
    componentwise scale"). *)
Definition Vector2Scale (v : Vector2) (scale : float) : Vector2 :=
  mkVector2 (fmul (Vector2_x v) scale) (fmul (Vector2_y v) scale).
Definition Vector3Scale (v : Vector3) (scale : float) : Vector3 :=
  mkVector3 (fmul (Vector3_x v) scale) (fmul (Vector3_y v) scale)
            (fmul (Vector3_z v) scale).

(** Modelled from the spec: raymath's [Vector2Negate] and [Vector3Negate],
    which the header calls and does not define (componentwise negation). *)
Definition Vector2Negate (v : Vector2) : Vector2 :=
  mkVector2 (fneg (Vector2_x v)) (fneg (Vector2_y v)).
Definition Vector3Negate (v : Vector3) : Vector3 :=
  mkVector3 (fneg (Vector3_x v)) (fneg (Vector3_y v)) (fneg (Vector3_z v)).

(** [Vector2 operator*(const Vector2& a, float b)] and its [Vector3] twin. *)
Definition operator_mul_Vector2 (a : Vector2) (b : float) : Vector2 :=
  Vector2Scale a b.
Definition operator_mul_Vector3 (a : Vector3) (b : float) : Vector3 :=
  Vector3Scale a b.

(** *** Division: exceptions and the diagnostic stream *)

Inductive exception := domain_error (what : string).

(** An output stream, as the text written to it so far. *)
Definition ostream := string.

Definition endl : string := String (ascii_of_nat 10) EmptyString.

(** The outcome of a call that may [throw]: the state of [std::cerr]
    afterwards and either the exception or the returned value. *)
Definition throwing (A : Type) : Type := ostream * (exception + A).

(** [Vector2 operator/(const Vector2& a, const float b)].  The test
    [b==0.0] compares in [double]; so does the quotient [1.0/b], which the
    initialisation of [recip] converts to [float]. *)
Definition operator_div_Vector2 (cerr : ostream) (a : Vector2) (b : float)
  : throwing Vector2 :=
  if SFeqb (double_of_float b) double_zero then
    ((cerr ++ "Division by zero error." ++ endl)%string,
     inl (domain_error "Division by zero error"))
  else
    let recip := float_of_double (SFdiv 53 1024 double_one (double_of_float b)) in
    (cerr, inr (operator_mul_Vector2 a recip)).

Definition operator_div_Vector3 (cerr : ostream) (a : Vector3) (b : float)
  : throwing Vector3 :=
  if SFeqb (double_of_float b) double_zero then
    ((cerr ++ "Division by zero error." ++ endl)%string,
     inl (domain_error "Division by zero error"))
  else
    let recip := float_of_double (SFdiv 53 1024 double_one (double_of_float b)) in
    (cerr, inr (operator_mul_Vector3 a recip)).

(** *** Equality ([EQUALITY_OPERATOR_KNUTH], the configuration the header
    selects) *)

(** The comparison the source writes out for each component:
    [fabs(x - y) <= ( (fabs(x) > fabs(y) ? fabs(y) : fabs(x)) * epsilon )]. *)
Definition tolerance (x y : float) : float :=
  fmul (if fgt (fabs x) (fabs y) then fabs y else fabs x) epsilon.

Definition component_equal (x y : float) : bool :=
  fle (fabs (fsub x y)) (tolerance x y).

Definition operator_eq_Vector2 (a b : Vector2) : bool :=
  let XIsEqual := component_equal (Vector2_x a) (Vector2_x b) in
  let YIsEqual := component_equal (Vector2_y a) (Vector2_y b) in
  XIsEqual && YIsEqual.

Definition operator_eq_Vector3 (a b : Vector3) : bool :=
  let XIsEqual := component_equal (Vector3_x a) (Vector3_x b) in
  let YIsEqual := component_equal (Vector3_y a) (Vector3_y b) in
  let ZIsEqual := component_equal (Vector3_z a) (Vector3_z b) in
  XIsEqual && YIsEqual && ZIsEqual.

Definition operator_eq_Vector4 (a b : Vector4) : bool :=
  let XIsEqual := component_equal (Vector4_x a) (Vector4_x b) in
  let YIsEqual := component_equal (Vector4_y a) (Vector4_y b) in
  let ZIsEqual := component_equal (Vector4_z a) (Vector4_z b) in
  let WIsEqual := component_equal (Vector4_w a) (Vector4_w b) in
  XIsEqual && YIsEqual && ZIsEqual && WIsEqual.

(** The specification's wording of the same test, for comparison: "the
    absolute difference is at most the machine epsilon times the smaller of
    the two components' absolute values", in [float] arithmetic. *)
Definition smaller (x y : float) : float := if fle x y then x else y.

Definition spec_within_tolerance (x y : float) : Prop :=
  fle (fabs (fsub x y)) (fmul epsilon (smaller (fabs x) (fabs y))) = true.

(** ** Stream insertion ([operator<<]) *)

(** *** Text of a [float] in a stream's default state

    [os << f] formats like [printf("%g")] with the stream's precision, 6 by
    default: the value is rounded to [P] significant decimal digits; with
    [X] its decimal exponent, fixed notation is used when [-4 <= X < P] and
    scientific notation otherwise; trailing zeros of the fraction, and a
    bare decimal point, are removed. *)

Definition decimal (n : Z) : string := NilZero.string_of_int (Z.to_int n).

(** The largest [X] with [10^X <= num/den], searched upward from [X] when
    the value is at least 1 and downward otherwise. *)
Fixpoint exp10_up (fuel : nat) (num den X : Z) : Z :=
  match fuel with
  | O => X
  | S fuel' =>
      if 10 ^ (X + 1) * den <=? num then exp10_up fuel' num den (X + 1) else X
  end.

Fixpoint exp10_down (fuel : nat) (num den X : Z) : Z :=
  match fuel with
  | O => X
  | S fuel' =>
      if den <=? num * 10 ^ (- X) then X else exp10_down fuel' num den (X - 1)
  end.

Definition decimal_exponent (num den : Z) : Z :=
  if den <=? num then exp10_up 400 num den 0 else exp10_down 400 num den (-1).

Definition round_half_even (p q : Z) : Z :=
  let n := p / q in
  let r2 := 2 * (p mod q) in
  if r2 <? q then n
  else if q <? r2 then n + 1
  else if Z.even n then n else n + 1.

(** [num/den] scaled to [P] significant digits and rounded, with the decimal
    exponent after rounding. *)
Definition significand (P num den : Z) : Z * Z :=
  let X := decimal_exponent num den in
  let k := P - 1 - X in
  let N := if 0 <=? k then round_half_even (num * 10 ^ k) den
           else round_half_even num (den * 10 ^ (- k)) in
  if 10 ^ P <=? N then (N / 10, X + 1) else (N, X).

Fixpoint drop_zeros (l : list ascii) : list ascii :=
  match l with
  | "0"%char :: l' => drop_zeros l'
  | _ => l
  end.

Definition strip_trailing_zeros (s : string) : string :=
  string_of_list_ascii (rev (drop_zeros (rev (list_ascii_of_string s)))).

Fixpoint zeros (n : nat) : string :=
  match n with
  | O => EmptyString
  | S n' => String "0"%char (zeros n')
  end.

(** The decimal text of [n], padded on the left with zeros to [width]. *)
Definition pad_zeros (width : Z) (n : Z) : string :=
  let t := decimal n in
  (zeros (Z.to_nat width - String.length t) ++ t)%string.

Definition with_fraction (int_part frac : string) : string :=
  match strip_trailing_zeros frac with
  | EmptyString => int_part
  | f => (int_part ++ "." ++ f)%string
  end.

(** The [%g] text of the positive rational [num/den] at precision [P]. *)
Definition format_g_pos (P num den : Z) : string :=
  let '(N, X) := significand P num den in
  if (X <? -4) || (P <=? X) then
    let lead := N / 10 ^ (P - 1) in
    let frac := if P =? 1 then EmptyString
                else pad_zeros (P - 1) (N mod 10 ^ (P - 1)) in
    (with_fraction (decimal lead) frac
     ++ "e" ++ (if (X <? 0)%Z then "-" else "+")
     ++ pad_zeros 2 (Z.abs X))%string
  else
    let k := P - 1 - X in
    let frac := if k =? 0 then EmptyString else pad_zeros k (N mod 10 ^ k) in
    with_fraction (decimal (N / 10 ^ k)) frac.

Definition format_g (P : Z) (f : spec_float) : string :=
  let sign (s : bool) := if s then "-"%string else EmptyString in
  match f with
  | S754_nan => "nan"%string
  | S754_infinity s => (sign s ++ "inf")%string
  | S754_zero s => (sign s ++ "0")%string
  | S754_finite s m e =>
      let text := if e <? 0 then format_g_pos P (Zpos m) (2 ^ (- e))
                  else format_g_pos P (Zpos m * 2 ^ e) 1 in
      (sign s ++ text)%string
  end.

(** [os << "text"] and [os << f] for a [float], on a stream in its default
    formatting state. *)
Definition put_string (os : ostream) (s : string) : ostream := (os ++ s)%string.
Definition put_float (os : ostream) (f : float) : ostream :=
  (os ++ format_g 6 f)%string.

(** *** Vectors: the two formats the header offers, one of which a build
    selects *)

Inductive vector_format :=
| PRINT_VECTORS_WITH_PARENTHESES
| PRINT_VECTORS_BY_COMPONENT.

(** [std::ostream& operator<<(std::ostream& os, Vector2 a)]: the stream
    after the insertion, which is also the stream returned. *)
Definition operator_shl_Vector2 (fmt : vector_format) (os : ostream) (a : Vector2)
  : ostream :=
  match fmt with
  | PRINT_VECTORS_WITH_PARENTHESES =>
      put_string
        (put_float (put_string (put_float (put_string os "(") (Vector2_x a)) ",")
           (Vector2_y a)) ")"
  | PRINT_VECTORS_BY_COMPONENT =>
      put_float (put_string (put_float (put_string os "x=") (Vector2_x a)) ", y=")
        (Vector2_y a)
  end.

(** ** Pixel format names *)

(** The enumerators of raylib.h's [PixelFormat] that the [switch] names. *)
Inductive PixelFormat :=
| PIXELFORMAT_UNCOMPRESSED_GRAYSCALE
| PIXELFORMAT_UNCOMPRESSED_GRAY_ALPHA
| PIXELFORMAT_UNCOMPRESSED_R5G6B5
| PIXELFORMAT_UNCOMPRESSED_R8G8B8
| PIXELFORMAT_UNCOMPRESSED_R5G5B5A1
| PIXELFORMAT_UNCOMPRESSED_R4G4B4A4
| PIXELFORMAT_UNCOMPRESSED_R8G8B8A8
| PIXELFORMAT_UNCOMPRESSED_R32
| PIXELFORMAT_UNCOMPRESSED_R32G32B32
| PIXELFORMAT_UNCOMPRESSED_R32G32B32A32
| PIXELFORMAT_COMPRESSED_DXT1_RGB
| PIXELFORMAT_COMPRESSED_DXT1_RGBA
| PIXELFORMAT_COMPRESSED_DXT3_RGBA
| PIXELFORMAT_COMPRESSED_DXT5_RGBA
| PIXELFORMAT_COMPRESSED_ETC1_RGB
| PIXELFORMAT_COMPRESSED_ETC2_RGB
| PIXELFORMAT_COMPRESSED_ETC2_EAC_RGBA
| PIXELFORMAT_COMPRESSED_PVRT_RGB
| PIXELFORMAT_COMPRESSED_PVRT_RGBA
| PIXELFORMAT_COMPRESSED_ASTC_4x4_RGBA
| PIXELFORMAT_COMPRESSED_ASTC_8x8_RGBA.

(** The [case] labels of the [switch], in source order, each with the
    string its branch assigns to [os]. *)
Definition PixelFormat_cases : list (PixelFormat * string) :=
  [ (PIXELFORMAT_UNCOMPRESSED_GRAYSCALE,
     "PIXELFORMAT_UNCOMPRESSED_GRAYSCALE, 8 bit per pixel (no alpha)");
    (PIXELFORMAT_UNCOMPRESSED_GRAY_ALPHA,
     "PIXELFORMAT_UNCOMPRESSED_GRAY_ALPHA, 8*2 bpp (2 channels)");
    (PIXELFORMAT_UNCOMPRESSED_R5G6B5, "PIXELFORMAT_UNCOMPRESSED_R5G6B5, 16 bpp");
    (PIXELFORMAT_UNCOMPRESSED_R8G8B8, "PIXELFORMAT_UNCOMPRESSED_R8G8B8, 24 bpp");
    (PIXELFORMAT_UNCOMPRESSED_R5G5B5A1,
     "PIXELFORMAT_UNCOMPRESSED_R5G5B5A1, 16 bpp (1 bit alpha)");
    (PIXELFORMAT_UNCOMPRESSED_R4G4B4A4,
     "PIXELFORMAT_UNCOMPRESSED_R4G4B4A4, 16 bpp (4 bit alpha)");
    (PIXELFORMAT_UNCOMPRESSED_R8G8B8A8, "PIXELFORMAT_UNCOMPRESSED_R8G8B8A8, 32 bpp");
    (PIXELFORMAT_UNCOMPRESSED_R32,
     "PIXELFORMAT_UNCOMPRESSED_R32, 32 bpp (1 channel - float)");
    (PIXELFORMAT_UNCOMPRESSED_R32G32B32,
     "PIXELFORMAT_UNCOMPRESSED_R32G32B32, 32*3 bpp (3 channels - float)");
    (PIXELFORMAT_UNCOMPRESSED_R32G32B32A32,
     "PIXELFORMAT_UNCOMPRESSED_R32G32B32A32, 32*4 bpp (4 channels - float)");
    (PIXELFORMAT_COMPRESSED_DXT1_RGB,
     "PIXELFORMAT_COMPRESSED_DXT1_RGB, 4 bpp (no alpha)");
    (PIXELFORMAT_COMPRESSED_DXT1_RGBA,
     "PIXELFORMAT_COMPRESSED_DXT1_RGBA, 4 bpp (1 bit alpha)");
    (PIXELFORMAT_COMPRESSED_DXT3_RGBA, "PIXELFORMAT_COMPRESSED_DXT3_RGBA, 8 bpp");
    (PIXELFORMAT_COMPRESSED_DXT5_RGBA, "PIXELFORMAT_COMPRESSED_DXT5_RGBA, 8 bpp");
    (PIXELFORMAT_COMPRESSED_ETC1_RGB, "PIXELFORMAT_COMPRESSED_ETC1_RGB, 4 bpp");
    (PIXELFORMAT_COMPRESSED_ETC2_RGB, "PIXELFORMAT_COMPRESSED_ETC2_RGB, 4 bpp");
    (PIXELFORMAT_COMPRESSED_ETC2_EAC_RGBA,
     "PIXELFORMAT_COMPRESSED_ETC2_EAC_RGBA, 8 bpp");
    (PIXELFORMAT_COMPRESSED_PVRT_RGB, "PIXELFORMAT_COMPRESSED_PVRT_RGB, 4 bpp");
    (PIXELFORMAT_COMPRESSED_PVRT_RGBA, "PIXELFORMAT_COMPRESSED_PVRT_RGBA, 4 bpp");
    (PIXELFORMAT_COMPRESSED_ASTC_4x4_RGBA,
     "PIXELFORMAT_COMPRESSED_ASTC_4x4_RGBA, 8 bpp");
    (PIXELFORMAT_COMPRESSED_ASTC_8x8_RGBA,
     "PIXELFORMAT_COMPRESSED_ASTC_8x8_RGBA, 2 bpp") ]%string.

Definition PixelFormat_default : string :=
  "Unrecognized PixelFormat number"%string.

(** A [switch] over [case] labels whose branches all [break]: the branch of
    the label equal to the scrutinee, the [default] one without such a
    label.  The integer value of a label is given by [enum_value]. *)
Fixpoint switch (enum_value : PixelFormat -> Z) (format : Z)
    (cases : list (PixelFormat * string)) (default : string) : string :=
  match cases with
  | [] => default
  | (label, os) :: rest =>
      if format =? enum_value label then os
      else switch enum_value format rest default
  end.

(** [std::string PixelFormatNumberToName(int format)].  The values of the
    enumerators are declared in raylib.h, outside the header: they are the
    parameter [enum_value]. *)
Definition PixelFormatNumberToName (enum_value : PixelFormat -> Z) (format : Z)
  : string :=
  switch enum_value format PixelFormat_cases PixelFormat_default.

(** The numbering raylib.h gives the enumerators: consecutive from 1. *)
Definition raylib_enum_value (p : PixelFormat) : Z :=
  match p with
  | PIXELFORMAT_UNCOMPRESSED_GRAYSCALE => 1
  | PIXELFORMAT_UNCOMPRESSED_GRAY_ALPHA => 2
  | PIXELFORMAT_UNCOMPRESSED_R5G6B5 => 3
  | PIXELFORMAT_UNCOMPRESSED_R8G8B8 => 4
  | PIXELFORMAT_UNCOMPRESSED_R5G5B5A1 => 5
  | PIXELFORMAT_UNCOMPRESSED_R4G4B4A4 => 6
  | PIXELFORMAT_UNCOMPRESSED_R8G8B8A8 => 7
  | PIXELFORMAT_UNCOMPRESSED_R32 => 8
  | PIXELFORMAT_UNCOMPRESSED_R32G32B32 => 9
  | PIXELFORMAT_UNCOMPRESSED_R32G32B32A32 => 10
  | PIXELFORMAT_COMPRESSED_DXT1_RGB => 11
  | PIXELFORMAT_COMPRESSED_DXT1_RGBA => 12
  | PIXELFORMAT_COMPRESSED_DXT3_RGBA => 13
  | PIXELFORMAT_COMPRESSED_DXT5_RGBA => 14
  | PIXELFORMAT_COMPRESSED_ETC1_RGB => 15
  | PIXELFORMAT_COMPRESSED_ETC2_RGB => 16
  | PIXELFORMAT_COMPRESSED_ETC2_EAC_RGBA => 17
  | PIXELFORMAT_COMPRESSED_PVRT_RGB => 18
  | PIXELFORMAT_COMPRESSED_PVRT_RGBA => 19
  | PIXELFORMAT_COMPRESSED_ASTC_4x4_RGBA => 20
  | PIXELFORMAT_COMPRESSED_ASTC_8x8_RGBA => 21
  end.

(** ** Negation through a reference *)

(** Objects live in a store; a reference is the location of its object. *)
Definition loc := positive.

(** [Vector2& operator-(Vector2& a)]: [a=Vector2Negate(a); return a;].  The
    result is the store after the assignment and the location the returned
    reference designates; [None] only for a location holding no object,
    which a reference never is. *)
Definition operator_neg_Vector2 (a : loc) (mem : gmap loc Vector2)
  : option (gmap loc Vector2 * loc) :=
  match mem !! a with
  | Some v => Some (<[a := Vector2Negate v]> mem, a)
  | None => None
  end.

Definition operator_neg_Vector3 (a : loc) (mem : gmap loc Vector3)
  : option (gmap loc Vector3 * loc) :=
  match mem !! a with
  | Some v => Some (<[a := Vector3Negate v]> mem, a)
  | None => None
  end.

(** ** Notions the properties are stated with *)

(** Saturation of an integer into the range of an [unsigned char]. *)
Definition saturate (v : Z) : Z := Z.max 0 (Z.min 255 v).

(** What rounding to binary32 returns: a finite result has a mantissa below
    2^24. *)
Definition small_mantissa (f : float) : Prop :=
  match f with
  | S754_finite _ m _ => Zpos m < 2 ^ 24
  | _ => True
  end.

(** A component that scaling by 2^(es+23) and back leaves in the normal
    range: a zero, or a normal number whose scaled exponent is that of a
    normal number too. *)
Definition scalable (es : Z) (x : float) : bool :=
  match x with
  | S754_zero _ => true
  | S754_finite _ m e =>
      (digits2_pos m =? 24)%positive
      && (-149 <=? e) && (e <=? 104)
      && (-149 <=? e + es + 23) && (e + es + 23 <=? 104)
  | S754_infinity _ | S754_nan => false
  end.


(** The saturation asked of a scaled channel, on the value of the product
    itself: the truncated value saturated into [0,255], the infinities
    counting as above 255 and below 0; nothing for NaN. *)
Definition saturate_float (v : float) : option Z :=
  match v with
  | S754_nan => None
  | S754_infinity s => Some (if s then 0 else 255)
  | S754_zero _ | S754_finite _ _ _ => option_map saturate (Ztrunc_float v)
  end.

(** What rounding to binary32 returns for a mantissa of 24 bits or more: a
    finite result is normalised, with its leading bit at position 23
    unless its exponent is the least one. *)
Definition normalized (f : float) : Prop :=
  match f with
  | S754_finite _ m e => Zpos m < 2 ^ 24 /\ (e = -149 \/ 2 ^ 23 <= Zpos m)
  | _ => True
  end.

(** ** The remaining arithmetic and comparison overloads *)

Definition fadd : float -> float -> float := SFadd 24 128.
Definition feq : float -> float -> bool := SFeqb.

(** A well-formed binary32 datum: the mantissa of a finite number is in
    canonical position, with at most 24 bits and an exponent from -149 to
    104. *)
Definition valid_float (f : float) : bool := valid_binary 24 128 f.

(** [Vector4 operator+(const Vector4& a, const Vector4& b)] and
    [operator-]: written out componentwise in the header. *)
Definition operator_plus_Vector4 (a b : Vector4) : Vector4 :=
  mkVector4 (fadd (Vector4_x a) (Vector4_x b)) (fadd (Vector4_y a) (Vector4_y b))
            (fadd (Vector4_z a) (Vector4_z b)) (fadd (Vector4_w a) (Vector4_w b)).

Definition operator_minus_Vector4 (a b : Vector4) : Vector4 :=
  mkVector4 (fsub (Vector4_x a) (Vector4_x b)) (fsub (Vector4_y a) (Vector4_y b))
            (fsub (Vector4_z a) (Vector4_z b)) (fsub (Vector4_w a) (Vector4_w b)).

(** The shape all compound assignments between two objects share,
    [T& operator@=(T& a, const T& b) { a=a@b; return a; }]: both references
    are read, which may designate the same object, then [a] is assigned;
    the reference returned is [a]. *)
Definition compound_assign {T : Type} (op : T -> T -> T) (a b : loc)
    (mem : gmap loc T) : option (gmap loc T * loc) :=
  match mem !! a, mem !! b with
  | Some va, Some vb => Some (<[a := op va vb]> mem, a)
  | _, _ => None
  end.

(** [Vector4& operator+=(Vector4& a, const Vector4& b)] and [operator-=]. *)
Definition operator_plus_assign_Vector4 :=
  compound_assign operator_plus_Vector4.
Definition operator_minus_assign_Vector4 :=
  compound_assign operator_minus_Vector4.

(** [Color& operator+=(Color&a, const Color& b)], [operator-=] and
    [operator*=]: the local [c] of the operator called is fresh storage
    [c0]. *)
Definition operator_plus_assign_Color (c0 : Color) :=
  compound_assign (operator_plus_Color c0).
Definition operator_minus_assign_Color (c0 : Color) :=
  compound_assign (operator_minus_Color c0).
Definition operator_mul_assign_Color (c0 : Color) :=
  compound_assign (operator_mul_Color_Color c0).

(** [Vector2& operator*=(Vector2& a, const float b)] and its [Vector3]
    twin: [a=a*b; return a;]. *)
Definition operator_mul_assign_Vector2 (a : loc) (b : float)
    (mem : gmap loc Vector2) : option (gmap loc Vector2 * loc) :=
  match mem !! a with
  | Some va => Some (<[a := operator_mul_Vector2 va b]> mem, a)
  | None => None
  end.

Definition operator_mul_assign_Vector3 (a : loc) (b : float)
    (mem : gmap loc Vector3) : option (gmap loc Vector3 * loc) :=
  match mem !! a with
  | Some va => Some (<[a := operator_mul_Vector3 va b]> mem, a)
  | None => None
  end.

(** [Vector2& operator/=(Vector2& a, const float b)]: [a=a/b; return a;].
    When [a/b] throws, the assignment is not reached: the outcome carries
    the store as it is at that point. *)
Definition operator_div_assign_Vector2 (cerr : ostream) (a : loc) (b : float)
    (mem : gmap loc Vector2)
  : option (ostream * gmap loc Vector2 * (exception + loc)) :=
  match mem !! a with
  | Some va =>
      match operator_div_Vector2 cerr va b with
      | (cerr', inl e) => Some (cerr', mem, inl e)
      | (cerr', inr v) => Some (cerr', <[a := v]> mem, inr a)
      end
  | None => None
  end.

Definition operator_div_assign_Vector3 (cerr : ostream) (a : loc) (b : float)
    (mem : gmap loc Vector3)
  : option (ostream * gmap loc Vector3 * (exception + loc)) :=
  match mem !! a with
  | Some va =>
      match operator_div_Vector3 cerr va b with
      | (cerr', inl e) => Some (cerr', mem, inl e)
      | (cerr', inr v) => Some (cerr', <[a := v]> mem, inr a)
      end
  | None => None
  end.

(** *** Equality ([EQUALITY_OPERATOR_SIMPLE], the configuration the header
    offers and leaves commented out) *)

Definition operator_eq_simple_Vector2 (a b : Vector2) : bool :=
  if feq (Vector2_x a) (Vector2_x b) && feq (Vector2_y a) (Vector2_y b)
  then true else false.

Definition operator_eq_simple_Vector3 (a b : Vector3) : bool :=
  if feq (Vector3_x a) (Vector3_x b) && feq (Vector3_y a) (Vector3_y b)
     && feq (Vector3_z a) (Vector3_z b)
  then true else false.

Definition operator_eq_simple_Vector4 (a b : Vector4) : bool :=
  if feq (Vector4_x a) (Vector4_x b) && feq (Vector4_y a) (Vector4_y b)
     && feq (Vector4_z a) (Vector4_z b) && feq (Vector4_w a) (Vector4_w b)
  then true else false.

(** The reciprocal [operator/] multiplies by: [float recip=1.0/b;]. *)
Definition recip (b : float) : float :=
  float_of_double (SFdiv 53 1024 double_one (double_of_float b)).

(** The [Vector4] whose components are all [+0.0f]. *)
Definition Vector4_zero : Vector4 :=
  mkVector4 (S754_zero false) (S754_zero false) (S754_zero false) (S754_zero false).

(** A scalar that is a zero or a negative finite number. *)
Definition nonpositive_finite (s : float) : bool :=
  match s with
  | S754_zero _ | S754_finite true _ _ => true
  | _ => false
  end.

(** Modelled from the spec: raymath's [Vector2Add], [Vector3Add],
    [Vector2Subtract] and [Vector3Subtract], which the header calls and does
    not define ("Addition/subtraction: componentwise"). *)
Definition Vector2Add (v1 v2 : Vector2) : Vector2 :=
  mkVector2 (fadd (Vector2_x v1) (Vector2_x v2)) (fadd (Vector2_y v1) (Vector2_y v2)).
Definition Vector3Add (v1 v2 : Vector3) : Vector3 :=
  mkVector3 (fadd (Vector3_x v1) (Vector3_x v2)) (fadd (Vector3_y v1) (Vector3_y v2))
            (fadd (Vector3_z v1) (Vector3_z v2)).
Definition Vector2Subtract (v1 v2 : Vector2) : Vector2 :=
  mkVector2 (fsub (Vector2_x v1) (Vector2_x v2)) (fsub (Vector2_y v1) (Vector2_y v2)).
Definition Vector3Subtract (v1 v2 : Vector3) : Vector3 :=
  mkVector3 (fsub (Vector3_x v1) (Vector3_x v2)) (fsub (Vector3_y v1) (Vector3_y v2))
            (fsub (Vector3_z v1) (Vector3_z v2)).

(** [operator+] and [operator-] on [Vector2] and [Vector3], and their
    compound forms. *)
Definition operator_plus_Vector2 (a b : Vector2) : Vector2 := Vector2Add a b.
Definition operator_plus_Vector3 (a b : Vector3) : Vector3 := Vector3Add a b.
Definition operator_minus_Vector2 (a b : Vector2) : Vector2 := Vector2Subtract a b.
Definition operator_minus_Vector3 (a b : Vector3) : Vector3 := Vector3Subtract a b.

Definition operator_plus_assign_Vector2 := compound_assign operator_plus_Vector2.
Definition operator_plus_assign_Vector3 := compound_assign operator_plus_Vector3.
Definition operator_minus_assign_Vector2 := compound_assign operator_minus_Vector2.
Definition operator_minus_assign_Vector3 := compound_assign operator_minus_Vector3.

(** A well-formed [float] that is a number: finite or infinite, not NaN. *)
Definition is_number (x : float) : bool := valid_float x && negb (is_nan x).

(** The red, green and blue channels of a colour. *)
Definition rgb (c : Color) : Z * Z * Z := (Color_r c, Color_g c, Color_b c).

(** * Properties *)

(** ** Colour arithmetic on [int] intermediates *)

Lemma cast_uchar_small (z : Z) : 0 <= z <= 255 -> cast_uchar z = z.
Proof. intros H. unfold cast_uchar. apply Z.mod_small. lia. Qed.

Lemma clamp_int_saturate (v : Z) : clamp_int v = saturate v.
Proof.
  unfold clamp_int, saturate. rewrite Z.gtb_ltb.
  destruct (Z.ltb_spec 255 v); destruct (Z.ltb_spec v 0); lia.
Qed.

Lemma saturate_range (v : Z) : 0 <= saturate v <= 255.
Proof. unfold saturate. lia. Qed.

Lemma clamp_hi_saturate (v : Z) :
  0 <= v -> (if v >? 255 then 255 else v) = saturate v.
Proof.
  intros H. unfold saturate. rewrite Z.gtb_ltb.
  destruct (Z.ltb_spec 255 v); lia.
Qed.

Lemma clamp_lo_saturate (v : Z) :
  v <= 255 -> (if v <? 0 then 0 else v) = saturate v.
Proof.
  intros H. unfold saturate. destruct (Z.ltb_spec v 0); lia.
Qed.

(** C1: in [operator+(Color,Color)] and [operator-(Color,Color)] the fields
    assigned are, in order, red, green, blue and red again: the clamped
    alpha result is the last value stored into the red channel, replacing
    the clamped red result stored first, and the alpha field keeps the
    content [c0] the storage of the local had. *)
Theorem color_add_sub_alpha_written_to_red (c0 a b : Color) :
  let sum := Color_a a + Color_a b in
  let diff := Color_a a - Color_a b in
  (assigned (operator_plus_Color_body a b) = [ch_r; ch_g; ch_b; ch_r]
   /\ hd_error (operator_plus_Color_body a b)
      = Some (ch_r, cast_uchar (if Color_r a + Color_r b >? 255 then 255
                                else Color_r a + Color_r b))
   /\ Color_r (operator_plus_Color c0 a b)
      = cast_uchar (if sum >? 255 then 255 else sum)
   /\ Color_a (operator_plus_Color c0 a b) = Color_a c0)
  /\
  (assigned (operator_minus_Color_body a b) = [ch_r; ch_g; ch_b; ch_r]
   /\ hd_error (operator_minus_Color_body a b)
      = Some (ch_r, cast_uchar (if Color_r a - Color_r b <? 0 then 0
                                else Color_r a - Color_r b))
   /\ Color_r (operator_minus_Color c0 a b)
      = cast_uchar (if diff <? 0 then 0 else diff)
   /\ Color_a (operator_minus_Color c0 a b) = Color_a c0).
Proof. repeat split. Qed.


(** ** Rounding keeps a binary32 mantissa below 2^24 *)

Lemma digits2_pos_bound (m : positive) : Zpos m < 2 ^ Zpos (digits2_pos m).
Proof.
  induction m as [m IH | m IH | ]; simpl digits2_pos.
  - rewrite Pos2Z.inj_succ, Z.pow_succ_r by lia. lia.
  - rewrite Pos2Z.inj_succ, Z.pow_succ_r by lia. lia.
  - reflexivity.
Qed.

Lemma Zdigits2_nonneg (n : Z) : 0 <= Zdigits2 n.
Proof. destruct n; simpl; lia. Qed.

Lemma shr_1_digits (r : shr_record) :
  Zdigits2 (shr_m (shr_1 r)) = Z.max 0 (Zdigits2 (shr_m r) - 1).
Proof.
  destruct r as [m r s]. destruct m as [ | [p | p | ] | [p | p | ]]; simpl;
    try rewrite Pos2Z.inj_succ; lia.
Qed.

Lemma iter_shr_1_digits (p : positive) : forall r : shr_record,
  Zdigits2 (shr_m (SpecFloat.iter_pos shr_1 p r)) = Z.max 0 (Zdigits2 (shr_m r) - Zpos p).
Proof.
  induction p as [p IH | p IH | ]; intros r; simpl SpecFloat.iter_pos.
  - rewrite !IH, shr_1_digits. pose proof (Zdigits2_nonneg (shr_m r)). lia.
  - rewrite !IH. pose proof (Zdigits2_nonneg (shr_m r)). lia.
  - apply shr_1_digits.
Qed.

Lemma shr_record_of_loc_m (m : Z) (l : location) :
  shr_m (shr_record_of_loc m l) = m.
Proof. destruct l as [ | [ | | ]]; reflexivity. Qed.

Lemma shr_fexp_digits (m e : Z) (l : location) :
  Zdigits2 (shr_m (fst (shr_fexp 24 128 m e l))) <= 24.
Proof.
  unfold shr_fexp, shr, fexp, emin.
  pose proof (Zdigits2_nonneg m) as Hd.
  destruct (Z.max (Zdigits2 m + e - 24) (3 - 128 - 24) - e) as [ | p | p] eqn:E;
    simpl fst.
  - rewrite shr_record_of_loc_m. lia.
  - rewrite iter_shr_1_digits, shr_record_of_loc_m. lia.
  - rewrite shr_record_of_loc_m. lia.
Qed.

Lemma binary_round_aux_digits (sx : bool) (mx ex : Z) (lx : location) :
  match binary_round_aux 24 128 sx mx ex lx with
  | S754_finite _ m _ => Zpos m < 2 ^ 24
  | _ => True
  end.
Proof.
  unfold binary_round_aux.
  destruct (shr_fexp 24 128 mx ex lx) as [mrs' e'].
  pose proof (shr_fexp_digits
                (round_nearest_even (shr_m mrs') (loc_of_shr_record mrs')) e' loc_Exact) as H.
  destruct (shr_fexp 24 128 _ e' loc_Exact) as [mrs'' e'']. simpl fst in H.
  destruct (shr_m mrs'') as [ | m | m]; trivial.
  destruct (e'' <=? 128 - 24); trivial.
  simpl in H. pose proof (digits2_pos_bound m).
  assert (2 ^ Zpos (digits2_pos m) <= 2 ^ 24) by (apply Z.pow_le_mono_r; lia).
  lia.
Qed.

Lemma shr_1_nonneg (r : shr_record) : 0 <= shr_m r -> 0 <= shr_m (shr_1 r).
Proof.
  destruct r as [m r s]. destruct m as [ | [p | p | ] | [p | p | ]]; simpl; lia.
Qed.

Lemma iter_shr_1_nonneg (p : positive) : forall r : shr_record,
  0 <= shr_m r -> 0 <= shr_m (SpecFloat.iter_pos shr_1 p r).
Proof.
  induction p as [p IH | p IH | ]; intros r H; simpl SpecFloat.iter_pos.
  - apply IH, IH, shr_1_nonneg, H.
  - apply IH, IH, H.
  - apply shr_1_nonneg, H.
Qed.

Lemma shr_fexp_nonneg (prec emax m e : Z) (l : location) :
  0 <= m -> 0 <= shr_m (fst (shr_fexp prec emax m e l)).
Proof.
  intros H. unfold shr_fexp, shr.
  destruct (fexp prec emax (Zdigits2 m + e) - e) as [ | p | p]; simpl fst;
    try apply iter_shr_1_nonneg; rewrite shr_record_of_loc_m; exact H.
Qed.

Lemma round_nearest_even_nonneg (m : Z) (l : location) :
  0 <= m -> 0 <= round_nearest_even m l.
Proof.
  intros H. destruct l as [ | [ | | ]]; simpl; try lia.
  destruct (Z.even m); lia.
Qed.

(** Rounding a non-negative mantissa gives a zero, a finite number or an
    infinity of the sign asked for, never a NaN. *)
Lemma binary_round_aux_cases (prec emax : Z) (sx : bool) (mx ex : Z) (lx : location) :
  0 <= mx ->
  binary_round_aux prec emax sx mx ex lx = S754_zero sx
  \/ binary_round_aux prec emax sx mx ex lx = S754_infinity sx
  \/ exists m e, binary_round_aux prec emax sx mx ex lx = S754_finite sx m e.
Proof.
  intros H. unfold binary_round_aux.
  pose proof (shr_fexp_nonneg prec emax mx ex lx H) as H1.
  destruct (shr_fexp prec emax mx ex lx) as [mrs' e']. simpl fst in H1.
  pose proof (shr_fexp_nonneg prec emax _ e' loc_Exact
                (round_nearest_even_nonneg _ (loc_of_shr_record mrs') H1)) as H2.
  destruct (shr_fexp prec emax _ e' loc_Exact) as [mrs'' e'']. simpl fst in H2.
  destruct (shr_m mrs'') as [ | m | m].
  - left. reflexivity.
  - destruct (e'' <=? emax - prec); [right; right; eauto | right; left; reflexivity].
  - lia.
Qed.

Lemma fmul_small_mantissa (x y : float) : small_mantissa (fmul x y).
Proof.
  destruct x as [sx | sx | | sx mx ex], y as [sy | sy | | sy my ey]; simpl; trivial.
  apply binary_round_aux_digits.
Qed.

Lemma uchar_of_float_in_range (t : Z) (s : bool) (m : positive) (e : Z) :
  Ztrunc_float (S754_finite s m e) = Some t -> 0 <= t <= 255 ->
  uchar_of_float (S754_finite s m e) = Some t.
Proof.
  intros Ht Hr. unfold uchar_of_float. rewrite Ht.
  destruct (Z.leb_spec 0 t); try lia.
  destruct (Z.leb_spec t 255); try lia. reflexivity.
Qed.

(** A positive finite value that does not compare above 255 truncates to an
    [unsigned char]. *)
Lemma uchar_of_float_le_255 (m : positive) (e : Z) :
  Zpos m < 2 ^ 24 ->
  fgt (S754_finite false m e) (float_of_int 255) = false ->
  exists t, uchar_of_float (S754_finite false m e) = Some t /\ 0 <= t <= 255.
Proof.
  intros Hm Hgt.
  change (float_of_int 255) with (S754_finite false 16711680 (-16)) in Hgt.
  unfold fgt, SFltb in Hgt. cbn [SFcompare] in Hgt.
  assert (e < -16 \/ (e = -16 /\ Zpos m <= 16711680)) as He.
  { destruct (Z.compare_spec (-16) e) as [E | E | E]; try discriminate; try lia.
    right. split; [lia | ].
    rewrite Pos.compare_cont_spec in Hgt. cbn [Pos.switch_Eq] in Hgt.
    destruct (Pos.compare_spec 16711680 m) as [E' | E' | E'];
      cbn in Hgt; try discriminate; lia. }
  assert (0 < 2 ^ (- e)) as Hpow by (apply Z.pow_pos_nonneg; lia).
  exists (Zpos m / 2 ^ (- e)).
  assert (0 <= Zpos m / 2 ^ (- e) <= 255) as Hr.
  { split; [apply Z.div_pos; lia | ].
    apply Z.div_le_upper_bound; [lia | ].
    destruct He as [He | [He Hle]].
    - assert (2 ^ 17 <= 2 ^ (- e)) by (apply Z.pow_le_mono_r; lia). nia.
    - subst e. change (2 ^ (- -16)) with 65536. lia. }
  split; [ | exact Hr].
  apply uchar_of_float_in_range; [ | exact Hr].
  unfold Ztrunc_float. cbn [cond_Zopp].
  destruct (Z.ltb_spec e 0); [reflexivity | lia].
Qed.

(** The clamp followed by the conversion: defined, and within the range of
    an [unsigned char], for everything but NaN. *)
Lemma uchar_of_clamp_float (v : float) :
  small_mantissa v ->
  if is_nan v then uchar_of_float (clamp_float v) = None
  else exists t, uchar_of_float (clamp_float v) = Some t /\ 0 <= t <= 255.
Proof.
  intros Hv. destruct v as [s | [ | ] | | [ | ] m e]; simpl is_nan; cbv iota.
  - exists 0. split; [reflexivity | lia].
  - exists 0. split; [reflexivity | lia].
  - exists 255. split; [reflexivity | lia].
  - reflexivity.
  - exists 0. split; [reflexivity | lia].
  - simpl in Hv. unfold clamp_float.
    destruct (fgt (S754_finite false m e) (float_of_int 255)) eqn:Hgt.
    + exists 255. split; [reflexivity | lia].
    + change (flt (S754_finite false m e) (float_of_int 0)) with false. cbv iota.
      apply uchar_of_float_le_255; assumption.
Qed.

(** ** Rounding normalises *)

Lemma digits2_pos_lower (m : positive) : 2 ^ (Zpos (digits2_pos m) - 1) <= Zpos m.
Proof.
  induction m as [m IH | m IH | ]; simpl digits2_pos.
  - rewrite Pos2Z.inj_succ. replace (Z.succ (Zpos (digits2_pos m)) - 1)
      with (Z.succ (Zpos (digits2_pos m) - 1)) by lia.
    rewrite Z.pow_succ_r by lia. lia.
  - rewrite Pos2Z.inj_succ. replace (Z.succ (Zpos (digits2_pos m)) - 1)
      with (Z.succ (Zpos (digits2_pos m) - 1)) by lia.
    rewrite Z.pow_succ_r by lia. lia.
  - reflexivity.
Qed.

Lemma Zdigits2_mono (a b : Z) : 0 <= a <= b -> Zdigits2 a <= Zdigits2 b.
Proof.
  intros [Ha Hab]. destruct a as [ | a | a]; [apply Zdigits2_nonneg | | lia].
  destruct b as [ | b | b]; try lia. simpl.
  destruct (Z_lt_le_dec (Zpos (digits2_pos b)) (Zpos (digits2_pos a))) as [Hlt | ]; [ | lia].
  exfalso. pose proof (digits2_pos_lower a). pose proof (digits2_pos_bound b).
  assert (2 ^ Zpos (digits2_pos b) <= 2 ^ (Zpos (digits2_pos a) - 1))
    by (apply Z.pow_le_mono_r; lia).
  lia.
Qed.

Lemma round_nearest_even_ge (m : Z) (l : location) : m <= round_nearest_even m l.
Proof.
  destruct l as [ | [ | | ]]; simpl; try lia. destruct (Z.even m); lia.
Qed.

(** One application of [shr_fexp]: either nothing is shifted, or the
    exponent becomes the canonical one and the digits shifted out are
    lost. *)
Lemma shr_fexp_stage (m e : Z) (l : location) :
  0 <= m ->
  0 <= shr_m (fst (shr_fexp 24 128 m e l))
  /\ ((fexp 24 128 (Zdigits2 m + e) <= e
       /\ shr_m (fst (shr_fexp 24 128 m e l)) = m
       /\ snd (shr_fexp 24 128 m e l) = e)
      \/ (e < fexp 24 128 (Zdigits2 m + e)
          /\ snd (shr_fexp 24 128 m e l) = fexp 24 128 (Zdigits2 m + e)
          /\ Zdigits2 (shr_m (fst (shr_fexp 24 128 m e l)))
             = Z.max 0 (Zdigits2 m - (fexp 24 128 (Zdigits2 m + e) - e)))).
Proof.
  intros Hm. split; [apply shr_fexp_nonneg, Hm | ].
  unfold shr_fexp, shr.
  destruct (fexp 24 128 (Zdigits2 m + e) - e) as [ | p | p] eqn:E; simpl fst; simpl snd.
  - left. rewrite shr_record_of_loc_m. lia.
  - right. rewrite iter_shr_1_digits, shr_record_of_loc_m. lia.
  - left. rewrite shr_record_of_loc_m. lia.
Qed.

Lemma binary_round_aux_normalized (sx : bool) (mx ex : Z) (lx : location) :
  0 <= mx -> 24 <= Zdigits2 mx ->
  normalized (binary_round_aux 24 128 sx mx ex lx).
Proof.
  intros Hm Hd.
  pose proof (binary_round_aux_digits sx mx ex lx) as Hlt.
  unfold binary_round_aux in *.
  destruct (shr_fexp_stage mx ex lx Hm) as (Hn1 & H1).
  destruct (shr_fexp 24 128 mx ex lx) as [mrs' e']. simpl fst in *. simpl snd in *.
  set (m1 := round_nearest_even (shr_m mrs') (loc_of_shr_record mrs')) in *.
  assert (0 <= m1) as Hm1 by (apply round_nearest_even_nonneg, Hn1).
  assert (Zdigits2 (shr_m mrs') <= Zdigits2 m1) as Hmono
    by (apply Zdigits2_mono; split; [exact Hn1 | apply round_nearest_even_ge]).
  assert (e' = -149 \/ 24 <= Zdigits2 m1) as Hc.
  { unfold fexp, emin in H1. destruct H1 as [(Hf & Hsame & He) | (Hf & He & Hdig)];
      [rewrite Hsame in Hmono | ]; lia. }
  destruct (shr_fexp_stage m1 e' loc_Exact Hm1) as (Hn2 & H2).
  destruct (shr_fexp 24 128 m1 e' loc_Exact) as [mrs'' e'']. simpl fst in *. simpl snd in *.
  destruct (shr_m mrs'') as [ | m | m] eqn:Em; simpl; trivial.
  destruct (e'' <=? 128 - 24); simpl; trivial.
  split; [exact Hlt | ].
  assert (e'' = -149 \/ 24 <= Zdigits2 (Zpos m)) as Hout.
  { unfold fexp, emin in H2. destruct H2 as [(Hf & Heq & ->) | (Hf & He & Hdig)];
      [ | simpl Zdigits2 in Hdig].
    - rewrite Heq. exact Hc.
    - simpl Zdigits2. lia. }
  destruct Hout as [? | Hout]; [left; assumption | right].
  simpl in Hout. pose proof (digits2_pos_lower m).
  assert (2 ^ 23 <= 2 ^ (Zpos (digits2_pos m) - 1)) by (apply Z.pow_le_mono_r; lia).
  lia.
Qed.

(** The channels convert to zero or to normal numbers. *)
Lemma float_of_int_uchar_normal (n : Z) :
  0 <= n <= 255 ->
  float_of_int n = S754_zero false
  \/ exists m e, float_of_int n = S754_finite false m e /\ digits2_pos m = 24%positive.
Proof.
  intros H.
  assert (forallb (fun n =>
            match float_of_int n with
            | S754_zero false => true
            | S754_finite false m _ => (digits2_pos m =? 24)%positive
            | _ => false
            end) (map Z.of_nat (seq 0 256)) = true) as E by (vm_compute; reflexivity).
  rewrite forallb_forall in E.
  assert (In n (map Z.of_nat (seq 0 256))) as Hin
    by (rewrite <- (Z2Nat.id n) by lia; apply in_map, in_seq; lia).
  specialize (E n Hin).
  destruct (float_of_int n) as [[ | ] | | | [ | ] m e]; try discriminate; [left; reflexivity | ].
  right. exists m, e. apply Pos.eqb_eq in E. auto.
Qed.

Lemma scaled_channel_normalized (n : Z) (s : float) :
  0 <= n <= 255 -> normalized (fmul (float_of_int n) s).
Proof.
  intros Hn. destruct (float_of_int_uchar_normal n Hn) as [-> | (m & e & -> & Hd)].
  - destruct s; exact I.
  - destruct s as [ss | ss | | ss ms es]; try exact I.
    unfold fmul. cbn [SFmul]. apply binary_round_aux_normalized; [lia | ].
    apply (Z.le_trans _ (Zdigits2 (Zpos m))); [simpl; rewrite Hd; lia | ].
    apply Zdigits2_mono. nia.
Qed.

(** Clamping and converting is saturating the truncated value. *)
Lemma uchar_of_clamp_float_saturate (v : float) :
  normalized v -> uchar_of_float (clamp_float v) = saturate_float v.
Proof.
  intros Hv. destruct v as [s | [ | ] | | [ | ] m e]; try reflexivity.
  - (* negative: clamped to 0, and the truncated value is not positive *)
    change (uchar_of_float (clamp_float (S754_finite true m e))) with (Some 0).
    unfold saturate_float, Ztrunc_float, option_map, saturate. cbn [cond_Zopp].
    f_equal. destruct (Z.ltb_spec e 0).
    + assert (0 <= Zpos m / 2 ^ (- e))
        by (apply Z.div_pos; [lia | apply Z.pow_pos_nonneg; lia]).
      lia.
    + assert (0 <= 2 ^ e) by (apply Z.pow_nonneg; lia). nia.
  - destruct Hv as (Hlt & Hnorm).
    unfold saturate_float, option_map. cbn [Ztrunc_float cond_Zopp].
    unfold clamp_float.
    destruct (fgt (S754_finite false m e) (float_of_int 255)) eqn:Hgt.
    + (* compares above 255: the value is at least 255 *)
      change (uchar_of_float (float_of_int 255)) with (Some 255). f_equal.
      change (float_of_int 255) with (S754_finite false 16711680 (-16)) in Hgt.
      unfold fgt, SFltb in Hgt. cbn [SFcompare] in Hgt.
      assert (-16 < e \/ (e = -16 /\ 16711680 < Zpos m)) as He.
      { destruct (Z.compare_spec (-16) e) as [E | E | E]; try discriminate; try lia.
        right. split; [lia | ].
        rewrite Pos.compare_cont_spec in Hgt. cbn [Pos.switch_Eq] in Hgt.
        destruct (Pos.compare_spec 16711680 m) as [E' | E' | E'];
          cbn in Hgt; try discriminate; lia. }
      unfold saturate.
      destruct He as [He | (-> & He)].
      * destruct Hnorm as [-> | Hnorm]; [lia | ].
        destruct (Z.ltb_spec e 0).
        -- assert (256 <= Zpos m / 2 ^ (- e)).
           { apply Z.div_le_lower_bound; [apply Z.pow_pos_nonneg; lia | ].
             assert (2 ^ (- e) <= 2 ^ 15) by (apply Z.pow_le_mono_r; lia). lia. }
           lia.
        -- assert (1 <= 2 ^ e) by (apply (Z.pow_le_mono_r 2 0 e); lia). nia.
      * change (-16 <? 0) with true. cbv iota. change (2 ^ (- -16)) with 65536.
        assert (255 <= Zpos m / 65536) by (apply Z.div_le_lower_bound; lia). lia.
    + change (flt (S754_finite false m e) (float_of_int 0)) with false. cbv iota.
      destruct (uchar_of_float_le_255 m e Hlt Hgt) as (t & Ht & Hr).
      rewrite Ht. f_equal.
      unfold uchar_of_float in Ht. cbn [Ztrunc_float cond_Zopp] in Ht.
      destruct ((0 <=? _) && (_ <=? 255)) in Ht; [ | discriminate].
      injection Ht as Ht. rewrite Ht. unfold saturate. lia.
Qed.

(** The four values [operator*(Color,float)] stores, when it is defined. *)
Lemma operator_mul_Color_float_values (c0 a : Color) (s : float) (c : Color) :
  valid_Color a ->
  operator_mul_Color_float c0 a s = Some c ->
  Some (Color_r c) = saturate_float (fmul (float_of_int (Color_a a)) s)
  /\ Some (Color_g c) = saturate_float (fmul (float_of_int (Color_g a)) s)
  /\ Some (Color_b c) = saturate_float (fmul (float_of_int (Color_b a)) s)
  /\ Color_a c = Color_a c0.
Proof.
  intros (Hr & Hg & Hb & Ha). unfold uchar_range in *.
  unfold operator_mul_Color_float, operator_mul_Color_float_body.
  rewrite !uchar_of_clamp_float_saturate by (apply scaled_channel_normalized; assumption).
  destruct (saturate_float (fmul (float_of_int (Color_r a)) s)) as [vr | ];
    [ | discriminate].
  destruct (saturate_float (fmul (float_of_int (Color_g a)) s)) as [vg | ];
    [ | discriminate].
  destruct (saturate_float (fmul (float_of_int (Color_b a)) s)) as [vb | ];
    [ | discriminate].
  destruct (saturate_float (fmul (float_of_int (Color_a a)) s)) as [va | ];
    [ | discriminate].
  intros H. injection H as <-. repeat split.
Qed.

(** ** Colour scaling by a [float] *)

Lemma operator_mul_Color_float_body_cases (a : Color) (s : float) :
  match operator_mul_Color_float_body a s with
  | Some ws =>
      exists vr vg vb va,
        ws = [ (ch_r, vr); (ch_g, vg); (ch_b, vb); (ch_r, va) ]
        /\ uchar_of_float (clamp_float (fmul (float_of_int (Color_r a)) s)) = Some vr
        /\ uchar_of_float (clamp_float (fmul (float_of_int (Color_a a)) s)) = Some va
        /\ 0 <= vg <= 255 /\ 0 <= vb <= 255 /\ 0 <= va <= 255
  | None =>
      exists ch, is_nan (fmul (float_of_int (get_channel ch a)) s) = true
  end.
Proof.
  unfold operator_mul_Color_float_body.
  pose proof (uchar_of_clamp_float _ (fmul_small_mantissa (float_of_int (Color_r a)) s)) as Hr.
  pose proof (uchar_of_clamp_float _ (fmul_small_mantissa (float_of_int (Color_g a)) s)) as Hg.
  pose proof (uchar_of_clamp_float _ (fmul_small_mantissa (float_of_int (Color_b a)) s)) as Hb.
  pose proof (uchar_of_clamp_float _ (fmul_small_mantissa (float_of_int (Color_a a)) s)) as Ha.
  destruct (is_nan (fmul (float_of_int (Color_r a)) s)) eqn:Er;
    [rewrite Hr; exists ch_r; exact Er | destruct Hr as (vr & -> & Rr)].
  destruct (is_nan (fmul (float_of_int (Color_g a)) s)) eqn:Eg;
    [rewrite Hg; exists ch_g; exact Eg | destruct Hg as (vg & -> & Rg)].
  destruct (is_nan (fmul (float_of_int (Color_b a)) s)) eqn:Eb;
    [rewrite Hb; exists ch_b; exact Eb | destruct Hb as (vb & -> & Rb)].
  destruct (is_nan (fmul (float_of_int (Color_a a)) s)) eqn:Ea;
    [rewrite Ha; exists ch_a; exact Ea | destruct Ha as (va & -> & Ra)].
  exists vr, vg, vb, va. repeat split; lia.
Qed.

(** C9: [operator*(Color,Color)] and [operator*(Color,float)] assign red,
    green, blue and red again: the clamped alpha product is the last value
    stored into the red channel, replacing the clamped red product stored
    first, and the alpha field keeps the content [c0] of the storage.  The
    [float] overload returns a defined colour unless one of the four
    products is NaN, whose conversion to [unsigned char] is undefined. *)
Theorem color_mul_alpha_written_to_red (c0 a b : Color) (s : float) :
  (assigned (operator_mul_Color_Color_body a b) = [ch_r; ch_g; ch_b; ch_r]
   /\ hd_error (operator_mul_Color_Color_body a b)
      = Some (ch_r, cast_uchar (clamp_int (Color_r a * Color_r b)))
   /\ Color_r (operator_mul_Color_Color c0 a b)
      = cast_uchar (clamp_int (Color_a a * Color_a b))
   /\ Color_a (operator_mul_Color_Color c0 a b) = Color_a c0)
  /\
  match operator_mul_Color_float_body a s with
  | Some ws =>
      assigned ws = [ch_r; ch_g; ch_b; ch_r]
      /\ option_map snd (hd_error ws)
         = uchar_of_float (clamp_float (fmul (float_of_int (Color_r a)) s))
      /\ operator_mul_Color_float c0 a s = Some (exec ws c0)
      /\ Some (Color_r (exec ws c0))
         = uchar_of_float (clamp_float (fmul (float_of_int (Color_a a)) s))
      /\ Color_a (exec ws c0) = Color_a c0
  | None =>
      operator_mul_Color_float c0 a s = None
      /\ exists ch, is_nan (fmul (float_of_int (get_channel ch a)) s) = true
  end.
Proof.
  split; [repeat split | ].
  pose proof (operator_mul_Color_float_body_cases a s) as H.
  unfold operator_mul_Color_float.
  destruct (operator_mul_Color_float_body a s) as [ws | ].
  - destruct H as (vr & vg & vb & va & -> & Hr & Ha & _).
    rewrite Hr, Ha. repeat split.
  - split; [reflexivity | exact H].
Qed.

(** C2: for valid input colours, and storage [c0] that holds [unsigned
    char] values, every channel of the result of colour addition,
    subtraction, multiplication by a colour and multiplication by a scalar
    lies in [0,255]; the values stored are the saturated sums, differences
    and products, which the conversion to [unsigned char] leaves unchanged
    (no wrap-around); and [Color{250,10,0,255} + Color{10,250,0,0}] has red
    and green 255 and blue 0.  Multiplication by a scalar returns such a
    colour for every scalar but those making a product NaN, and each
    channel it stores is the truncated product saturated into [0,255]: 255
    for a product above 255, infinity included, and 0 for a product below
    0. *)
Theorem color_arithmetic_saturates (c0 a b : Color) (s : float) :
  valid_Color c0 -> valid_Color a -> valid_Color b ->
  (valid_Color (operator_plus_Color c0 a b)
   /\ Color_r (operator_plus_Color c0 a b) = saturate (Color_a a + Color_a b)
   /\ Color_g (operator_plus_Color c0 a b) = saturate (Color_g a + Color_g b)
   /\ Color_b (operator_plus_Color c0 a b) = saturate (Color_b a + Color_b b))
  /\
  (valid_Color (operator_minus_Color c0 a b)
   /\ Color_r (operator_minus_Color c0 a b) = saturate (Color_a a - Color_a b)
   /\ Color_g (operator_minus_Color c0 a b) = saturate (Color_g a - Color_g b)
   /\ Color_b (operator_minus_Color c0 a b) = saturate (Color_b a - Color_b b))
  /\
  (valid_Color (operator_mul_Color_Color c0 a b)
   /\ Color_r (operator_mul_Color_Color c0 a b) = saturate (Color_a a * Color_a b)
   /\ Color_g (operator_mul_Color_Color c0 a b) = saturate (Color_g a * Color_g b)
   /\ Color_b (operator_mul_Color_Color c0 a b) = saturate (Color_b a * Color_b b))
  /\
  match operator_mul_Color_float c0 a s with
  | Some c =>
      valid_Color c
      /\ Some (Color_r c) = saturate_float (fmul (float_of_int (Color_a a)) s)
      /\ Some (Color_g c) = saturate_float (fmul (float_of_int (Color_g a)) s)
      /\ Some (Color_b c) = saturate_float (fmul (float_of_int (Color_b a)) s)
  | None => exists ch, is_nan (fmul (float_of_int (get_channel ch a)) s) = true
  end
  /\
  (Color_r (operator_plus_Color c0 (mkColor 250 10 0 255) (mkColor 10 250 0 0)) = 255
   /\ Color_g (operator_plus_Color c0 (mkColor 250 10 0 255) (mkColor 10 250 0 0)) = 255
   /\ Color_b (operator_plus_Color c0 (mkColor 250 10 0 255) (mkColor 10 250 0 0)) = 0).
Proof.
  intros (_ & _ & _ & H0) Hva (Hbr & Hbg & Hbb & Hba).
  pose proof Hva as (Har & Hag & Hab & Haa).
  unfold uchar_range in *.
  assert (forall v, cast_uchar (saturate v) = saturate v) as Hsat
    by (intros v; apply cast_uchar_small, saturate_range).
  split; [ | split; [ | split; [ | split]]].
  - unfold operator_plus_Color, valid_Color, uchar_range; simpl.
    rewrite !clamp_hi_saturate, !Hsat by lia.
    pose proof saturate_range. auto 10.
  - unfold operator_minus_Color, valid_Color, uchar_range; simpl.
    rewrite !clamp_lo_saturate, !Hsat by lia.
    pose proof saturate_range. auto 10.
  - unfold operator_mul_Color_Color, valid_Color, uchar_range; simpl.
    rewrite !clamp_int_saturate, !Hsat.
    pose proof saturate_range. auto 10.
  - pose proof (operator_mul_Color_float_body_cases a s) as H.
    destruct (operator_mul_Color_float c0 a s) as [c | ] eqn:E.
    + destruct (operator_mul_Color_float_values c0 a s c Hva E) as (Sr & Sg & Sb & _).
      split; [ | auto].
      unfold operator_mul_Color_float in E.
      destruct (operator_mul_Color_float_body a s) as [ws | ]; [ | discriminate].
      destruct H as (vr & vg & vb & va & -> & _ & _ & Rg & Rb & Ra).
      injection E as <-. unfold valid_Color, uchar_range; simpl. auto.
    + unfold operator_mul_Color_float in E.
      destruct (operator_mul_Color_float_body a s) as [ws | ]; [discriminate | exact H].
  - repeat split.
Qed.

Lemma color_arithmetic_saturates_witness :
  valid_Color (mkColor 7 7 7 7) /\ valid_Color (mkColor 250 10 0 255)
  /\ valid_Color (mkColor 10 250 0 0)
  /\ Color_g (operator_minus_Color (mkColor 7 7 7 7) (mkColor 250 10 0 255)
                (mkColor 10 250 0 0)) = 0.
Proof.
  assert (valid_Color (mkColor 7 7 7 7)) as H0
    by (unfold valid_Color, uchar_range; simpl; lia).
  assert (valid_Color (mkColor 250 10 0 255)) as Ha
    by (unfold valid_Color, uchar_range; simpl; lia).
  assert (valid_Color (mkColor 10 250 0 0)) as Hb
    by (unfold valid_Color, uchar_range; simpl; lia).
  split; [exact H0 | split; [exact Ha | split; [exact Hb | ]]].
  destruct (color_arithmetic_saturates _ _ _ (S754_finite false 8388608 (-24)) H0 Ha Hb)
    as (_ & (_ & _ & Hg & _) & _).
  rewrite Hg. reflexivity.
Defined.

(** ** Division by zero *)

(** C3: dividing a [Vector2] or a [Vector3] by a zero of either sign writes
    the diagnostic line to [std::cerr] and throws [std::domain_error]; no
    vector is returned. *)
Theorem division_by_zero_throws
    (cerr : ostream) (a2 : Vector2) (a3 : Vector3) (sign : bool) :
  operator_div_Vector2 cerr a2 (S754_zero sign)
  = ((cerr ++ "Division by zero error." ++ endl)%string,
     inl (domain_error "Division by zero error"))
  /\ operator_div_Vector3 cerr a3 (S754_zero sign)
     = ((cerr ++ "Division by zero error." ++ endl)%string,
        inl (domain_error "Division by zero error")).
Proof. split; reflexivity. Qed.

(** ** Pixel format names *)

Lemma switch_range (ev : PixelFormat -> Z) (format : Z)
    (cases : list (PixelFormat * string)) (default : string) :
  In (switch ev format cases default) (default :: map snd cases).
Proof.
  induction cases as [ | [label os] rest IH]; simpl.
  - left. reflexivity.
  - destruct (format =? ev label).
    + right. left. reflexivity.
    + destruct IH as [IH | IH]; [left; exact IH | right; right; exact IH].
Qed.

Lemma switch_default (ev : PixelFormat -> Z) (format : Z)
    (cases : list (PixelFormat * string)) (default : string) :
  (forall label, In label (map fst cases) -> format <> ev label) ->
  switch ev format cases default = default.
Proof.
  induction cases as [ | [label os] rest IH]; simpl; intros H.
  - reflexivity.
  - destruct (Z.eqb_spec format (ev label)) as [E | E].
    + exfalso. apply (H label); [left; reflexivity | exact E].
    + apply IH. intros l Hl. apply H. right. exact Hl.
Qed.

Lemma switch_case (ev : PixelFormat -> Z)
    (cases : list (PixelFormat * string)) (default : string)
    (label : PixelFormat) (os : string) :
  (forall p q, ev p = ev q -> p = q) ->
  List.NoDup (map fst cases) -> In (label, os) cases ->
  switch ev (ev label) cases default = os.
Proof.
  intros Hinj. induction cases as [ | [l o] rest IH]; simpl; intros Hnd Hin.
  - contradiction.
  - inversion Hnd as [ | ? ? Hnotin Hnd']; subst.
    destruct Hin as [Hin | Hin].
    + inversion Hin; subst. rewrite Z.eqb_refl. reflexivity.
    + destruct (Z.eqb_spec (ev label) (ev l)) as [E | E].
      * exfalso. apply Hinj in E. subst l. apply Hnotin.
        change label with (fst (label, os)). apply in_map. exact Hin.
      * apply IH; assumption.
Qed.

Lemma PixelFormat_cases_NoDup : List.NoDup (map fst PixelFormat_cases).
Proof.
  simpl. repeat (constructor; [simpl; intuition discriminate | ]). constructor.
Qed.

Lemma PixelFormat_cases_complete (p : PixelFormat) :
  In p (map fst PixelFormat_cases).
Proof. destruct p; simpl; auto 25. Qed.

(** C6: [PixelFormatNumberToName] returns a string for every integer: the
    string of its [case] for the value of each enumerator, all 21 of which
    have a [case], and the fallback string for every other integer. *)
Theorem PixelFormatNumberToName_total (enum_value : PixelFormat -> Z) :
  (forall p q, enum_value p = enum_value q -> p = q) ->
  (forall format : Z,
      In (PixelFormatNumberToName enum_value format)
         (PixelFormat_default :: map snd PixelFormat_cases))
  /\ (forall p : PixelFormat, exists os, In (p, os) PixelFormat_cases)
  /\ (forall p os, In (p, os) PixelFormat_cases ->
        PixelFormatNumberToName enum_value (enum_value p) = os)
  /\ (forall format : Z, (forall p, format <> enum_value p) ->
        PixelFormatNumberToName enum_value format = PixelFormat_default).
Proof.
  intros Hinj. repeat split.
  - intros format. apply switch_range.
  - intros p. pose proof (PixelFormat_cases_complete p) as H.
    apply in_map_iff in H. destruct H as ([q os] & E & H). simpl in E. subst q.
    exists os. exact H.
  - intros p os H. apply switch_case;
      [exact Hinj | exact PixelFormat_cases_NoDup | exact H].
  - intros format H. apply switch_default. intros label _. apply H.
Qed.

Lemma raylib_enum_value_inj (p q : PixelFormat) :
  raylib_enum_value p = raylib_enum_value q -> p = q.
Proof. destruct p, q; simpl; intros E; try reflexivity; discriminate E. Qed.

Lemma PixelFormatNumberToName_total_witness :
  PixelFormatNumberToName raylib_enum_value 7
  = "PIXELFORMAT_UNCOMPRESSED_R8G8B8A8, 32 bpp"%string
  /\ PixelFormatNumberToName raylib_enum_value 0 = PixelFormat_default.
Proof.
  destruct (PixelFormatNumberToName_total raylib_enum_value raylib_enum_value_inj)
    as (_ & _ & Hcase & Hdefault).
  split.
  - apply (Hcase PIXELFORMAT_UNCOMPRESSED_R8G8B8A8). simpl. auto 25.
  - apply Hdefault. intros p. destruct p; simpl; discriminate.
Defined.

(** ** Printing *)

Lemma append_assoc (s t u : string) :
  ((s ++ t) ++ u)%string = (s ++ (t ++ u))%string.
Proof.
  induction s as [ | c s IH]; [reflexivity | ].
  change (String c ((s ++ t) ++ u) = String c (s ++ (t ++ u)))%string.
  rewrite IH. reflexivity.
Qed.

(** C7: inserting [Vector2{3,4}] into a stream appends exactly [x=3, y=4]
    in the labelled format and exactly [(3,4)] in the parenthesised one. *)
Theorem print_Vector2_3_4 (os : ostream) :
  operator_shl_Vector2 PRINT_VECTORS_BY_COMPONENT os
    (mkVector2 (float_of_int 3) (float_of_int 4))
  = (os ++ "x=3, y=4")%string
  /\ operator_shl_Vector2 PRINT_VECTORS_WITH_PARENTHESES os
       (mkVector2 (float_of_int 3) (float_of_int 4))
     = (os ++ "(3,4)")%string.
Proof.
  unfold operator_shl_Vector2, put_string, put_float; simpl Vector2_x; simpl Vector2_y.
  change (format_g 6 (float_of_int 3)) with "3"%string.
  change (format_g 6 (float_of_int 4)) with "4"%string.
  split; rewrite !append_assoc; reflexivity.
Qed.

(** ** Negation *)

(** C8: unary minus on a [Vector2] or [Vector3] overwrites the object its
    argument refers to with the componentwise negation of its prior value,
    leaves every other object alone, and returns a reference to that same
    object. *)
Theorem negation_mutates_in_place
    (a : loc) (v2 : Vector2) (mem2 : gmap loc Vector2)
    (v3 : Vector3) (mem3 : gmap loc Vector3) :
  mem2 !! a = Some v2 -> mem3 !! a = Some v3 ->
  (exists mem', operator_neg_Vector2 a mem2 = Some (mem', a)
     /\ mem' !! a
        = Some (mkVector2 (fneg (Vector2_x v2)) (fneg (Vector2_y v2)))
     /\ forall l, l <> a -> mem' !! l = mem2 !! l)
  /\
  (exists mem', operator_neg_Vector3 a mem3 = Some (mem', a)
     /\ mem' !! a
        = Some (mkVector3 (fneg (Vector3_x v3)) (fneg (Vector3_y v3))
                          (fneg (Vector3_z v3)))
     /\ forall l, l <> a -> mem' !! l = mem3 !! l).
Proof.
  intros H2 H3. split.
  - exists (<[a := Vector2Negate v2]> mem2).
    unfold operator_neg_Vector2. rewrite H2. repeat split.
    + apply lookup_insert_eq.
    + intros l Hl. apply lookup_insert_ne. congruence.
  - exists (<[a := Vector3Negate v3]> mem3).
    unfold operator_neg_Vector3. rewrite H3. repeat split.
    + apply lookup_insert_eq.
    + intros l Hl. apply lookup_insert_ne. congruence.
Qed.

Lemma negation_mutates_in_place_witness :
  (<[1%positive := mkVector2 (float_of_int 3) (float_of_int (-4))]> ∅
     : gmap loc Vector2) !! 1%positive
  = Some (mkVector2 (float_of_int 3) (float_of_int (-4)))
  /\ (<[1%positive := mkVector3 (float_of_int 1) (float_of_int 0) (float_of_int 2)]> ∅
        : gmap loc Vector3) !! 1%positive
     = Some (mkVector3 (float_of_int 1) (float_of_int 0) (float_of_int 2))
  /\ exists mem',
       operator_neg_Vector2 1%positive
         (<[1%positive := mkVector2 (float_of_int 3) (float_of_int (-4))]> ∅)
       = Some (mem', 1%positive)
       /\ mem' !! 1%positive
          = Some (mkVector2 (float_of_int (-3)) (float_of_int 4)).
Proof.
  assert ((<[1%positive := mkVector2 (float_of_int 3) (float_of_int (-4))]> ∅
             : gmap loc Vector2) !! 1%positive
          = Some (mkVector2 (float_of_int 3) (float_of_int (-4)))) as H2
    by apply lookup_insert_eq.
  assert ((<[1%positive := mkVector3 (float_of_int 1) (float_of_int 0) (float_of_int 2)]> ∅
             : gmap loc Vector3) !! 1%positive
          = Some (mkVector3 (float_of_int 1) (float_of_int 0) (float_of_int 2))) as H3
    by apply lookup_insert_eq.
  split; [exact H2 | split; [exact H3 | ]].
  destruct (negation_mutates_in_place 1%positive _ _ _ _ H2 H3)
    as ((mem' & Hop & Hnew & _) & _).
  exists mem'. split; [exact Hop | exact Hnew].
Defined.

(** ** Tolerant equality *)

Lemma SFmul_comm (prec emax : Z) (x y : spec_float) :
  SFmul prec emax x y = SFmul prec emax y x.
Proof.
  destruct x as [sx | sx | | sx mx ex], y as [sy | sy | | sy my ey]; simpl;
    try rewrite (xorb_comm sx sy); try reflexivity.
  rewrite (Pos.mul_comm mx my), (Z.add_comm ex ey). reflexivity.
Qed.

(** Among numbers, [x <= y] is the negation of [y < x]. *)
Lemma fle_not_flt (x y : float) :
  is_nan x = false -> is_nan y = false -> fle x y = negb (flt y x).
Proof.
  intros Hx Hy. unfold fle, flt, SFleb, SFltb.
  destruct x as [sx | sx | | sx mx ex], y as [sy | sy | | sy my ey];
    try discriminate; simpl;
    try (destruct sx; reflexivity); try (destruct sy; reflexivity);
    try (destruct sx, sy; reflexivity).
  pose proof (Pos.compare_cont_antisym mx my Eq) as A. simpl in A.
  destruct sx, sy; try reflexivity.
  all: rewrite (Z.compare_antisym ex ey).
  all: destruct (ex ?= ey) eqn:E; simpl; try reflexivity.
  all: destruct (Pos.compare_cont Eq mx my), (Pos.compare_cont Eq my mx);
    simpl in A; try discriminate A; reflexivity.
Qed.

Lemma fabs_is_nan (x : float) : is_nan (fabs x) = is_nan x.
Proof. destruct x; reflexivity. Qed.

(** The operand the source's conditional expression selects is the smaller
    of the two absolute values, when both are numbers. *)
Lemma smaller_fabs (x y : float) :
  is_nan x = false -> is_nan y = false ->
  smaller (fabs x) (fabs y) = if fgt (fabs x) (fabs y) then fabs y else fabs x.
Proof.
  intros Hx Hy. unfold smaller, fgt.
  rewrite fle_not_flt by (rewrite fabs_is_nan; assumption).
  change (SFltb (fabs y) (fabs x)) with (flt (fabs y) (fabs x)).
  destruct (flt (fabs y) (fabs x)); reflexivity.
Qed.

Lemma fsub_nan_l (y : float) : fsub S754_nan y = S754_nan.
Proof. reflexivity. Qed.

Lemma fsub_nan_r (x : float) : fsub x S754_nan = S754_nan.
Proof. destruct x; reflexivity. Qed.

Lemma component_equal_spec (x y : float) :
  component_equal x y = true <-> spec_within_tolerance x y.
Proof.
  unfold component_equal, spec_within_tolerance, tolerance.
  destruct (is_nan x) eqn:Hx.
  { destruct x; try discriminate. rewrite fsub_nan_l. simpl. split; discriminate. }
  destruct (is_nan y) eqn:Hy.
  { destruct y; try discriminate. rewrite fsub_nan_r. simpl. split; discriminate. }
  rewrite smaller_fabs by assumption.
  unfold fmul. rewrite (SFmul_comm 24 128 epsilon). reflexivity.
Qed.

(** C4: the tolerant [operator==] on [Vector2], [Vector3] and [Vector4] is
    true exactly when every pair of corresponding components has an absolute
    difference of at most epsilon times the smaller of the two absolute
    values (difference, product and comparison in [float] arithmetic). *)
Theorem tolerant_equality_componentwise
    (a2 b2 : Vector2) (a3 b3 : Vector3) (a4 b4 : Vector4) :
  (operator_eq_Vector2 a2 b2 = true
   <-> Forall2 spec_within_tolerance (components2 a2) (components2 b2))
  /\ (operator_eq_Vector3 a3 b3 = true
      <-> Forall2 spec_within_tolerance (components3 a3) (components3 b3))
  /\ (operator_eq_Vector4 a4 b4 = true
      <-> Forall2 spec_within_tolerance (components4 a4) (components4 b4)).
Proof.
  unfold operator_eq_Vector2, operator_eq_Vector3, operator_eq_Vector4,
    components2, components3, components4.
  repeat split.
  all: rewrite ?andb_true_iff, ?component_equal_spec.
  all: try (intros H; decompose [and] H; repeat constructor; assumption).
  all: intros H; repeat match goal with
         | H : Forall2 _ (_ :: _) (_ :: _) |- _ => inversion H; clear H; subst
         | H : Forall2 _ [] [] |- _ => clear H
         end; auto.
Qed.

(** C10: with a zero on one side of a pair of components the tolerance is
    zero (it is NaN only when the left component is NaN, where no
    comparison holds anyway), and the pair compares equal exactly when the
    other component is a zero of either sign; so vectors with a zero
    component compare equal only to vectors with a zero there. *)
Theorem zero_component_equals_only_zero (x y : float) :
  is_zero x = true ->
  tolerance x y = S754_zero false
  /\ tolerance y x = (if is_nan y then S754_nan else S754_zero false)
  /\ component_equal x y = is_zero y
  /\ component_equal y x = is_zero y
  /\ (forall u v, operator_eq_Vector2 (mkVector2 x u) (mkVector2 y v)
                  = is_zero y && component_equal u v)
  /\ (forall u v, operator_eq_Vector2 (mkVector2 y u) (mkVector2 x v)
                  = is_zero y && component_equal u v)
  /\ (forall u v, operator_eq_Vector2 (mkVector2 u x) (mkVector2 v y)
                  = component_equal u v && is_zero y)
  /\ (forall u v, operator_eq_Vector2 (mkVector2 u y) (mkVector2 v x)
                  = component_equal u v && is_zero y).
Proof.
  intros Hx. destruct x as [sx | | | ]; try discriminate. clear Hx.
  assert (component_equal (S754_zero sx) y = is_zero y) as H1
    by (destruct sx, y as [[ | ] | [ | ] | | [ | ] m e]; reflexivity).
  assert (component_equal y (S754_zero sx) = is_zero y) as H2
    by (destruct sx, y as [[ | ] | [ | ] | | [ | ] m e]; reflexivity).
  repeat split.
  - destruct y as [sy | sy | | sy m e]; reflexivity.
  - destruct y as [sy | sy | | sy m e]; reflexivity.
  - exact H1.
  - exact H2.
  - intros u v. unfold operator_eq_Vector2. simpl. rewrite H1. reflexivity.
  - intros u v. unfold operator_eq_Vector2. simpl. rewrite H2. reflexivity.
  - intros u v. unfold operator_eq_Vector2. simpl. rewrite H1. reflexivity.
  - intros u v. unfold operator_eq_Vector2. simpl. rewrite H2. reflexivity.
Qed.

Lemma zero_component_equals_only_zero_witness :
  is_zero (S754_zero true) = true
  /\ component_equal (S754_zero true) (S754_finite false 1 (-149)) = false
  /\ component_equal (S754_zero true) (S754_zero false) = true.
Proof.
  split; [reflexivity | ].
  destruct (zero_component_equals_only_zero (S754_zero true)
              (S754_finite false 1 (-149)) eq_refl) as (_ & _ & H & _).
  destruct (zero_component_equals_only_zero (S754_zero true)
              (S754_zero false) eq_refl) as (_ & _ & H' & _).
  split; [exact H | exact H'].
Defined.

(** ** Exact rounding *)

Lemma iter_pos_Pos_iter {A : Type} (f : A -> A) (p : positive) : forall x : A,
  SpecFloat.iter_pos f p x = Pos.iter f x p.
Proof.
  induction p as [p IH | p IH | ]; intros x; simpl.
  - rewrite !IH, <- !Pos.iter_swap. reflexivity.
  - rewrite !IH. reflexivity.
  - reflexivity.
Qed.

Lemma digits2_pos_shift (m n : positive) :
  Zpos (digits2_pos (Pos.iter xO m n)) = Zpos (digits2_pos m) + Zpos n.
Proof.
  induction n as [ | n IH] using Pos.peano_ind.
  - simpl. lia.
  - rewrite Pos.iter_succ. simpl digits2_pos. lia.
Qed.

Lemma shr_shifted (m n : positive) :
  SpecFloat.iter_pos shr_1 n (Build_shr_record (Zpos (Pos.iter xO m n)) false false)
  = Build_shr_record (Zpos m) false false.
Proof.
  rewrite iter_pos_Pos_iter.
  induction n as [ | n IH] using Pos.peano_ind.
  - reflexivity.
  - rewrite Pos.iter_succ_r, Pos.iter_succ. exact IH.
Qed.

(** A mantissa already in canonical position is returned as it is. *)
Lemma binary_round_aux_canonical (prec emax : Z) (s : bool) (m : positive) (e : Z) :
  Zpos (digits2_pos m) = prec ->
  3 - emax - prec <= e <= emax - prec ->
  binary_round_aux prec emax s (Zpos m) e loc_Exact = S754_finite s m e.
Proof.
  intros Hd He. unfold binary_round_aux, shr_fexp. cbn [Zdigits2].
  replace (fexp prec emax (Zpos (digits2_pos m) + e) - e) with 0
    by (unfold fexp, emin; lia).
  cbn [shr shr_record_of_loc shr_m loc_of_shr_record round_nearest_even Zdigits2].
  replace (fexp prec emax (Zpos (digits2_pos m) + e) - e) with 0
    by (unfold fexp, emin; lia).
  cbn [shr shr_m]. destruct (Z.leb_spec e (emax - prec)); [reflexivity | lia].
Qed.

(** A canonical mantissa followed by [n] zero bits is rounded without
    error: the zero bits are shifted out. *)
Lemma binary_round_aux_shifted (prec emax : Z) (s : bool) (m n : positive) (e : Z) :
  Zpos (digits2_pos m) = prec ->
  3 - emax - prec <= e + Zpos n <= emax - prec ->
  binary_round_aux prec emax s (Zpos (Pos.iter xO m n)) e loc_Exact
  = S754_finite s m (e + Zpos n).
Proof.
  intros Hd He. unfold binary_round_aux, shr_fexp. cbn [Zdigits2].
  rewrite digits2_pos_shift.
  replace (fexp prec emax (Zpos (digits2_pos m) + Zpos n + e) - e) with (Zpos n)
    by (unfold fexp, emin; lia).
  cbn [shr shr_record_of_loc]. rewrite shr_shifted.
  cbn [shr_m loc_of_shr_record round_nearest_even Zdigits2 shr_record_of_loc].
  replace (fexp prec emax (Zpos (digits2_pos m) + (e + Zpos n)) - (e + Zpos n)) with 0
    by (unfold fexp, emin; lia).
  cbn [shr shr_m]. destruct (Z.leb_spec (e + Zpos n) (emax - prec)); [reflexivity | lia].
Qed.

(** Multiplying a normal number by a power of two adds to the exponent. *)
Lemma fmul_power_of_two (s : bool) (m : positive) (e : Z) (s' : bool) (es : Z) :
  digits2_pos m = 24%positive ->
  -149 <= e + es + 23 <= 104 ->
  fmul (S754_finite s m e) (S754_finite s' 8388608 es)
  = S754_finite (xorb s s') m (e + es + 23).
Proof.
  intros Hd He. unfold fmul. cbn [SFmul].
  change (m * 8388608)%positive with (m * Pos.iter xO 1 23)%positive.
  replace (m * Pos.iter xO 1 23)%positive with (Pos.iter xO m 23).
  - rewrite binary_round_aux_shifted; [f_equal; lia | rewrite Hd; reflexivity | lia].
  - rewrite Pos.mul_comm. reflexivity.
Qed.

(** The reciprocal the division operators compute for a power of two. *)
Lemma recip_power_of_two (s' : bool) (es : Z) :
  -149 <= es <= 103 ->
  double_of_float (S754_finite s' 8388608 es)
  = S754_finite s' 4503599627370496 (es - 29)
  /\ float_of_double
       (SFdiv 53 1024 double_one (double_of_float (S754_finite s' 8388608 es)))
     = S754_finite s' 8388608 (- es - 46).
Proof.
  intros He.
  assert (double_of_float (S754_finite s' 8388608 es)
          = S754_finite s' 4503599627370496 (es - 29)) as Hd.
  { unfold double_of_float, binary_round, shl_align.
    change (digits2_pos 8388608%positive) with 24%positive.
    replace (fexp 53 1024 (24 + es) - es) with (-29) by (unfold fexp, emin; lia).
    replace (fexp 53 1024 (24 + es)) with (es - 29) by (unfold fexp, emin; lia).
    change (Pos.iter xO 8388608%positive 29) with 4503599627370496%positive.
    apply binary_round_aux_canonical; [reflexivity | lia]. }
  split; [exact Hd | ].
  rewrite Hd.
  change double_one with (S754_finite false 4503599627370496 (-52)).
  cbn [SFdiv]. unfold SFdiv_core_binary.
  change (Zdigits2 4503599627370496) with 53.
  replace (Z.min (fexp 53 1024 (53 + -52 - (53 + (es - 29)))) (-52 - (es - 29)))
    with (- es - 76) by (unfold fexp, emin; lia).
  replace (-52 - (es - 29) - (- es - 76)) with 53 by lia.
  change (Z.div_eucl (Z.shiftl 4503599627370496 53) 4503599627370496)
    with (9007199254740992, 0).
  cbv iota beta.
  change (new_location 4503599627370496 0) with loc_Exact.
  change (xorb false s') with s'.
  change (Zpos 9007199254740992) with (Zpos (Pos.iter xO 4503599627370496%positive 1)).
  rewrite binary_round_aux_shifted; [ | reflexivity | lia].
  unfold float_of_double, binary_round, shl_align.
  change (digits2_pos 4503599627370496%positive) with 53%positive.
  replace (fexp 24 128 (53 + (- es - 76 + 1)) - (- es - 76 + 1)) with 29
    by (unfold fexp, emin; lia).
  change 4503599627370496%positive with (Pos.iter xO 8388608%positive 29).
  rewrite binary_round_aux_shifted; [f_equal; lia | reflexivity | lia].
Qed.

(** ** Scaling and dividing by a power of two *)

Lemma round_trip_component (s' : bool) (es : Z) (x : float) :
  -149 <= es <= 103 -> scalable es x = true ->
  fmul (fmul x (S754_finite s' 8388608 es)) (S754_finite s' 8388608 (- es - 46)) = x.
Proof.
  intros Hes Hx. destruct x as [s | s | | s m e]; try discriminate.
  - destruct s, s'; reflexivity.
  - unfold scalable in Hx. rewrite !andb_true_iff in Hx.
    destruct Hx as ((((Hd & H1) & H2) & H3) & H4).
    apply Pos.eqb_eq in Hd.
    apply Z.leb_le in H1, H2, H3, H4.
    rewrite fmul_power_of_two by (assumption || lia).
    rewrite fmul_power_of_two by (assumption || lia).
    f_equal; [destruct s, s'; reflexivity | lia].
Qed.


(** A number is tolerantly equal to itself. *)
Lemma component_equal_refl (x : float) :
  is_finite x = true -> component_equal x x = true.
Proof.
  intros Hx. destruct x as [s | s | | s m e]; try discriminate.
  - destruct s; reflexivity.
  - unfold component_equal, tolerance.
    assert (fsub (S754_finite s m e) (S754_finite s m e) = S754_zero false) as ->.
    { unfold fsub. cbn [SFsub]. rewrite Z.sub_diag. reflexivity. }
    assert (forall t : float,
               (if fgt (fabs (S754_finite s m e)) (fabs (S754_finite s m e))
                then t else t) = t) as -> by (intros t; destruct (fgt _ _); reflexivity).
    unfold fmul, epsilon. cbn [fabs SFabs SFmul xorb].
    destruct (binary_round_aux_cases 24 128 false (Zpos (m * 8388608)) (e + -46)
                loc_Exact) as [-> | [-> | (m' & e' & ->)]];
      [lia | reflexivity | reflexivity | reflexivity].
Qed.




(** ** Tolerant equality as a relation *)

Lemma SFcompare_antisym (x y : spec_float) :
  SFcompare y x = option_map CompOpp (SFcompare x y).
Proof.
  destruct x as [sx | sx | | sx mx ex], y as [sy | sy | | sy my ey]; simpl;
    try reflexivity;
    try (destruct sx; reflexivity); try (destruct sy; reflexivity);
    try (destruct sx, sy; reflexivity).
  pose proof (Pos.compare_cont_antisym mx my Eq) as A. simpl in A.
  destruct sx, sy; try reflexivity.
  all: rewrite (Z.compare_antisym ex ey).
  all: destruct (ex ?= ey) eqn:E; simpl; try reflexivity.
  all: destruct (Pos.compare_cont Eq mx my), (Pos.compare_cont Eq my mx);
    simpl in A; try discriminate A; reflexivity.
Qed.

(** Two absolute values that compare equal are the same datum. *)
Lemma SFcompare_fabs_Eq (x y : float) :
  SFcompare (fabs x) (fabs y) = Some Eq -> fabs x = fabs y.
Proof.
  destruct x as [sx | sx | | sx mx ex], y as [sy | sy | | sy my ey]; simpl;
    try discriminate; try reflexivity.
  destruct (Z.compare_spec ex ey) as [E | E | E]; try discriminate.
  intros H. injection H as H. apply Pos.compare_eq in H. subst. reflexivity.
Qed.

Lemma fabs_binary_round_aux (prec emax : Z) (s s' : bool) (mx ex : Z) (lx : location) :
  SFabs (binary_round_aux prec emax s mx ex lx)
  = SFabs (binary_round_aux prec emax s' mx ex lx).
Proof.
  unfold binary_round_aux.
  destruct (shr_fexp prec emax mx ex lx) as [mrs' e'].
  destruct (shr_fexp prec emax _ e' loc_Exact) as [mrs'' e''].
  destruct (shr_m mrs'') as [ | m | m]; try reflexivity.
  destruct (e'' <=? emax - prec); reflexivity.
Qed.

Lemma fabs_binary_normalize_opp (prec emax : Z) (z e : Z) :
  SFabs (binary_normalize prec emax (- z) e false)
  = SFabs (binary_normalize prec emax z e false).
Proof.
  destruct z as [ | p | p]; simpl; try reflexivity;
    unfold binary_round; destruct (shl_align _ _ _) as [mz ez];
    apply fabs_binary_round_aux.
Qed.

(** The magnitude of a difference does not depend on the order of its
    operands. *)
Lemma fabs_fsub_swap (x y : float) : fabs (fsub x y) = fabs (fsub y x).
Proof.
  destruct x as [sx | sx | | sx mx ex], y as [sy | sy | | sy my ey];
    try reflexivity;
    try (destruct sx; reflexivity); try (destruct sy; reflexivity);
    try (destruct sx, sy; reflexivity).
  unfold fabs, fsub. cbn [SFsub].
  rewrite (Z.min_comm ey ex).
  set (A := cond_Zopp sx (Zpos (fst (shl_align mx ex (Z.min ex ey))))).
  set (B := cond_Zopp sy (Zpos (fst (shl_align my ey (Z.min ex ey))))).
  replace (B - A) with (- (A - B)) by lia.
  symmetry. apply fabs_binary_normalize_opp.
Qed.

Lemma tolerance_swap (x y : float) :
  is_nan x = false -> is_nan y = false -> tolerance x y = tolerance y x.
Proof.
  intros Hx Hy. unfold tolerance, fgt, SFltb.
  rewrite (SFcompare_antisym (fabs y) (fabs x)).
  destruct (SFcompare (fabs y) (fabs x)) as [[ | | ] | ] eqn:E; simpl; try reflexivity.
  - apply SFcompare_fabs_Eq in E. rewrite E. reflexivity.
  - destruct x, y; discriminate.
Qed.

Lemma component_equal_sym (x y : float) :
  component_equal x y = component_equal y x.
Proof.
  unfold component_equal. rewrite (fabs_fsub_swap x y).
  destruct (is_nan x) eqn:Hx.
  { destruct x; try discriminate. rewrite fsub_nan_r. reflexivity. }
  destruct (is_nan y) eqn:Hy.
  { destruct y; try discriminate. reflexivity. }
  rewrite (tolerance_swap x y Hx Hy). reflexivity.
Qed.

(** X1: The tolerant [operator==] does not depend on the order of its operands,
    for vectors of 2, 3 and 4 components. *)
Theorem tolerant_equality_symmetric
    (a2 b2 : Vector2) (a3 b3 : Vector3) (a4 b4 : Vector4) :
  operator_eq_Vector2 a2 b2 = operator_eq_Vector2 b2 a2
  /\ operator_eq_Vector3 a3 b3 = operator_eq_Vector3 b3 a3
  /\ operator_eq_Vector4 a4 b4 = operator_eq_Vector4 b4 a4.
Proof.
  unfold operator_eq_Vector2, operator_eq_Vector3, operator_eq_Vector4.
  repeat split; cbv zeta;
    repeat match goal with
      | |- context [component_equal (?f ?a) (?f ?b)] =>
          lazymatch a with
          | a2 => idtac | a3 => idtac | a4 => idtac
          end;
          rewrite (component_equal_sym (f a) (f b))
      end; reflexivity.
Qed.

Lemma component_equal_self (x : float) : component_equal x x = is_finite x.
Proof.
  destruct (is_finite x) eqn:H.
  - apply component_equal_refl, H.
  - destruct x as [s | [ | ] | | s m e]; try discriminate; reflexivity.
Qed.

(** X2: A vector compares tolerantly equal to itself exactly when all of its
    components are finite: one infinite or NaN component makes [a == a]
    false. *)
Theorem tolerant_equality_reflexive_on_finite
    (a2 : Vector2) (a3 : Vector3) (a4 : Vector4) :
  operator_eq_Vector2 a2 a2 = forallb is_finite (components2 a2)
  /\ operator_eq_Vector3 a3 a3 = forallb is_finite (components3 a3)
  /\ operator_eq_Vector4 a4 a4 = forallb is_finite (components4 a4).
Proof.
  unfold operator_eq_Vector2, operator_eq_Vector3, operator_eq_Vector4,
    components2, components3, components4.
  cbv zeta. rewrite !component_equal_self. simpl forallb.
  rewrite !andb_true_r, !andb_assoc. repeat split.
Qed.

(** ** Exact equality against tolerant equality *)

Lemma feq_finite_component_equal (x y : float) :
  feq x y = true -> is_finite x = true -> component_equal x y = true.
Proof.
  unfold feq, SFeqb. intros H Hx.
  destruct x as [sx | sx | | sx mx ex], y as [sy | sy | | sy my ey];
    try discriminate; simpl in H;
    try (destruct sx; discriminate); try (destruct sy; discriminate).
  - destruct sx, sy; reflexivity.
  - assert (sx = sy /\ ex = ey /\ mx = my) as (-> & -> & ->).
    { simpl in H. destruct sx, sy; try discriminate;
        destruct (Z.compare_spec ex ey) as [E | E | E]; try discriminate;
        destruct (Pos.compare_cont Eq mx my) eqn:C; try discriminate;
        apply Pos.compare_eq in C; auto. }
    apply component_equal_refl. reflexivity.
Qed.

Lemma feq_self (x : float) : feq x x = negb (is_nan x).
Proof.
  unfold feq, SFeqb. destruct x as [s | [ | ] | | [ | ] m e]; simpl;
    try reflexivity.
  - rewrite Z.compare_refl.
    change (Pos.compare_cont Eq m m) with (m ?= m)%positive.
    rewrite Pos.compare_refl. reflexivity.
  - rewrite Z.compare_refl.
    change (Pos.compare_cont Eq m m) with (m ?= m)%positive.
    rewrite Pos.compare_refl. reflexivity.
Qed.

(** X3: Vectors with finite components that the exact [operator==] finds equal
    are equal for the tolerant one too, in all three arities. *)
Theorem exact_equality_implies_tolerant
    (a2 b2 : Vector2) (a3 b3 : Vector3) (a4 b4 : Vector4) :
  implb (operator_eq_simple_Vector2 a2 b2 && forallb is_finite (components2 a2))
        (operator_eq_Vector2 a2 b2) = true
  /\ implb (operator_eq_simple_Vector3 a3 b3 && forallb is_finite (components3 a3))
           (operator_eq_Vector3 a3 b3) = true
  /\ implb (operator_eq_simple_Vector4 a4 b4 && forallb is_finite (components4 a4))
           (operator_eq_Vector4 a4 b4) = true.
Proof.
  unfold operator_eq_simple_Vector2, operator_eq_simple_Vector3,
    operator_eq_simple_Vector4, operator_eq_Vector2, operator_eq_Vector3,
    operator_eq_Vector4, components2, components3, components4.
  simpl forallb. cbv zeta.
  repeat split.
  all: repeat match goal with
         | |- context [feq ?x ?y] =>
             let E := fresh "E" in
             let F := fresh "F" in
             destruct (feq x y) eqn:E; [ | reflexivity];
             destruct (is_finite x) eqn:F;
             [rewrite (feq_finite_component_equal x y E F)
             | simpl; rewrite ?andb_false_r; reflexivity]
         end.
  all: reflexivity.
Qed.

(** X4: The exact [operator==] finds a vector equal to itself exactly when none
    of its components is NaN; infinite components, which the tolerant
    operator rejects, are accepted. *)
Theorem exact_equality_reflexive_without_nan
    (a2 : Vector2) (a3 : Vector3) (a4 : Vector4) :
  operator_eq_simple_Vector2 a2 a2
  = forallb (fun x => negb (is_nan x)) (components2 a2)
  /\ operator_eq_simple_Vector3 a3 a3
     = forallb (fun x => negb (is_nan x)) (components3 a3)
  /\ operator_eq_simple_Vector4 a4 a4
     = forallb (fun x => negb (is_nan x)) (components4 a4).
Proof.
  unfold operator_eq_simple_Vector2, operator_eq_simple_Vector3,
    operator_eq_simple_Vector4, components2, components3, components4.
  rewrite !feq_self. simpl forallb. rewrite !andb_true_r, !andb_assoc.
  repeat split; match goal with |- (if ?b then _ else _) = _ => destruct b end;
    reflexivity.
Qed.

(** ** Division: when it throws, and what [operator/=] leaves behind *)

Lemma valid_float_finite (s : bool) (m : positive) (e : Z) :
  valid_float (S754_finite s m e) = true ->
  fexp 24 128 (Zpos (digits2_pos m) + e) = e
  /\ Zpos (digits2_pos m) <= 24 /\ -149 <= e <= 104.
Proof.
  unfold valid_float, valid_binary, bounded, canonical_mantissa.
  rewrite andb_true_iff, Z.eqb_eq, Z.leb_le. unfold fexp, emin. lia.
Qed.

(** A canonical mantissa followed by [n] zero bits, normal or subnormal. *)
Lemma binary_round_aux_shifted_canonical
    (prec emax : Z) (s : bool) (m n : positive) (e : Z) :
  fexp prec emax (Zpos (digits2_pos m) + (e + Zpos n)) = e + Zpos n ->
  e + Zpos n <= emax - prec ->
  binary_round_aux prec emax s (Zpos (Pos.iter xO m n)) e loc_Exact
  = S754_finite s m (e + Zpos n).
Proof.
  intros Hc He. unfold binary_round_aux, shr_fexp. cbn [Zdigits2].
  rewrite digits2_pos_shift.
  replace (Zpos (digits2_pos m) + Zpos n + e)
    with (Zpos (digits2_pos m) + (e + Zpos n)) by lia.
  rewrite Hc. replace (e + Zpos n - e) with (Zpos n) by lia.
  cbn [shr shr_record_of_loc]. rewrite shr_shifted.
  cbn [shr_m loc_of_shr_record round_nearest_even Zdigits2 shr_record_of_loc].
  rewrite Hc, Z.sub_diag.
  cbn [shr shr_m]. destruct (Z.leb_spec (e + Zpos n) (emax - prec)); [reflexivity | lia].
Qed.

(** The promotion of a finite [float] to [double] is finite: it never
    turns a nonzero divisor into zero. *)
Lemma double_of_float_finite (s : bool) (m : positive) (e : Z) :
  valid_float (S754_finite s m e) = true ->
  exists m' e', double_of_float (S754_finite s m e) = S754_finite s m' e'.
Proof.
  intros Hv. apply valid_float_finite in Hv. destruct Hv as (_ & Hd & He).
  unfold double_of_float, binary_round, shl_align.
  assert (fexp 53 1024 (Zpos (digits2_pos m) + e) = Zpos (digits2_pos m) + e - 53)
    as Hf by (unfold fexp, emin; lia).
  rewrite Hf.
  destruct (Zpos (digits2_pos m) + e - 53 - e) as [ | p | p] eqn:Ep; try lia.
  exists (Pos.iter xO m p), (Zpos (digits2_pos m) + e - 53).
  apply binary_round_aux_canonical.
  - rewrite digits2_pos_shift. lia.
  - lia.
Qed.

Lemma double_of_float_eq_zero (b : float) :
  valid_float b = true -> SFeqb (double_of_float b) double_zero = is_zero b.
Proof.
  intros Hv. destruct b as [s | s | | s m e].
  - reflexivity.
  - destruct s; reflexivity.
  - reflexivity.
  - destruct (double_of_float_finite s m e Hv) as (m' & e' & ->).
    destruct s; reflexivity.
Qed.

(** X5: [operator/] on [Vector2] and [Vector3] throws exactly for the divisors
    +0 and -0: every other well-formed divisor, however small, infinite or
    NaN, yields the product with the reciprocal and writes nothing to
    [std::cerr]. *)
Theorem division_throws_only_for_zero
    (cerr : ostream) (a2 : Vector2) (a3 : Vector3) (b : float) :
  valid_float b = true ->
  operator_div_Vector2 cerr a2 b
  = (if is_zero b
     then ((cerr ++ "Division by zero error." ++ endl)%string,
           inl (domain_error "Division by zero error"))
     else (cerr, inr (operator_mul_Vector2 a2 (recip b))))
  /\ operator_div_Vector3 cerr a3 b
     = (if is_zero b
        then ((cerr ++ "Division by zero error." ++ endl)%string,
              inl (domain_error "Division by zero error"))
        else (cerr, inr (operator_mul_Vector3 a3 (recip b)))).
Proof.
  intros Hv. unfold operator_div_Vector2, operator_div_Vector3.
  rewrite (double_of_float_eq_zero b Hv).
  destruct (is_zero b); split; reflexivity.
Qed.

Lemma division_throws_only_for_zero_witness :
  valid_float (S754_finite false 1 (-149)) = true
  /\ operator_div_Vector2 EmptyString
       (mkVector2 (S754_zero false) (S754_zero true)) (S754_finite false 1 (-149))
     = (EmptyString, inr (mkVector2 (S754_nan) (S754_nan))).
Proof.
  split; [reflexivity | ].
  destruct (division_throws_only_for_zero EmptyString
              (mkVector2 (S754_zero false) (S754_zero true))
              (mkVector3 (S754_zero false) (S754_zero false) (S754_zero false))
              (S754_finite false 1 (-149)) eq_refl) as (H & _).
  rewrite H. reflexivity.
Defined.

(** X6: [operator/=] on [Vector2] and [Vector3]: with a zero divisor the object
    [a] refers to, and the whole store, are left as they were, the
    diagnostic is written and the exception propagates; with any other
    well-formed divisor only that object changes, to the quotient, and the
    reference returned is [a]. *)
Theorem division_assignment_is_exception_safe
    (cerr : ostream) (a : loc) (b : float)
    (v2 : Vector2) (mem2 : gmap loc Vector2)
    (v3 : Vector3) (mem3 : gmap loc Vector3) :
  valid_float b = true -> mem2 !! a = Some v2 -> mem3 !! a = Some v3 ->
  operator_div_assign_Vector2 cerr a b mem2
  = Some (if is_zero b
          then ((cerr ++ "Division by zero error." ++ endl)%string, mem2,
                inl (domain_error "Division by zero error"))
          else (cerr, <[a := operator_mul_Vector2 v2 (recip b)]> mem2, inr a))
  /\ operator_div_assign_Vector3 cerr a b mem3
     = Some (if is_zero b
             then ((cerr ++ "Division by zero error." ++ endl)%string, mem3,
                   inl (domain_error "Division by zero error"))
             else (cerr, <[a := operator_mul_Vector3 v3 (recip b)]> mem3, inr a)).
Proof.
  intros Hv H2 H3. unfold operator_div_assign_Vector2, operator_div_assign_Vector3.
  rewrite H2, H3.
  destruct (division_throws_only_for_zero cerr v2 v3 b Hv) as (-> & ->).
  destruct (is_zero b); split; reflexivity.
Qed.

Lemma division_assignment_is_exception_safe_witness :
  valid_float (S754_zero true) = true
  /\ (<[2%positive := mkVector2 (float_of_int 3) (float_of_int 4)]> ∅
        : gmap loc Vector2) !! 2%positive
     = Some (mkVector2 (float_of_int 3) (float_of_int 4))
  /\ (<[2%positive := mkVector3 (float_of_int 1) (float_of_int 2) (float_of_int 3)]> ∅
        : gmap loc Vector3) !! 2%positive
     = Some (mkVector3 (float_of_int 1) (float_of_int 2) (float_of_int 3))
  /\ operator_div_assign_Vector2 EmptyString 2%positive (S754_zero true)
       (<[2%positive := mkVector2 (float_of_int 3) (float_of_int 4)]> ∅)
     = Some (("Division by zero error." ++ endl)%string,
             <[2%positive := mkVector2 (float_of_int 3) (float_of_int 4)]> ∅,
             inl (domain_error "Division by zero error")).
Proof.
  assert ((<[2%positive := mkVector2 (float_of_int 3) (float_of_int 4)]> ∅
             : gmap loc Vector2) !! 2%positive
          = Some (mkVector2 (float_of_int 3) (float_of_int 4))) as H2
    by apply lookup_insert_eq.
  assert ((<[2%positive := mkVector3 (float_of_int 1) (float_of_int 2) (float_of_int 3)]> ∅
             : gmap loc Vector3) !! 2%positive
          = Some (mkVector3 (float_of_int 1) (float_of_int 2) (float_of_int 3))) as H3
    by apply lookup_insert_eq.
  split; [reflexivity | split; [exact H2 | split; [exact H3 | ]]].
  destruct (division_assignment_is_exception_safe EmptyString 2%positive
              (S754_zero true) _ _ _ _ eq_refl H2 H3) as (H & _).
  exact H.
Defined.

(** ** Scaling by 1 and by -1 *)

Lemma fmul_unit (x : float) (s' : bool) :
  valid_float x = true ->
  fmul x (S754_finite s' 8388608 (-23)) = (if s' then fneg x else x).
Proof.
  intros Hv. destruct x as [s | s | | s m e].
  - destruct s, s'; reflexivity.
  - destruct s, s'; reflexivity.
  - destruct s'; reflexivity.
  - apply valid_float_finite in Hv. destruct Hv as (Hc & _ & He).
    unfold fmul. cbn [SFmul].
    change (m * 8388608)%positive with (m * Pos.iter xO 1 23)%positive.
    replace (m * Pos.iter xO 1 23)%positive with (Pos.iter xO m 23)
      by (rewrite Pos.mul_comm; reflexivity).
    rewrite binary_round_aux_shifted_canonical.
    + replace (e + -23 + 23) with e by lia. destruct s, s'; reflexivity.
    + replace (e + -23 + 23) with e by lia. exact Hc.
    + unfold Z.sub. lia.
Qed.

(** X7: For vectors whose components are well-formed numbers (zeros of
    either sign, subnormals, normals, infinities), multiplying or dividing
    by [1.0f] returns the vector unchanged, and multiplying or dividing by
    [-1.0f] returns its componentwise negation. *)
Theorem scaling_by_unit
    (cerr : ostream) (a2 : Vector2) (a3 : Vector3) :
  forallb is_number (components2 a2) = true ->
  forallb is_number (components3 a3) = true ->
  (operator_mul_Vector2 a2 (float_of_int 1) = a2
   /\ operator_div_Vector2 cerr a2 (float_of_int 1) = (cerr, inr a2)
   /\ operator_mul_Vector2 a2 (float_of_int (-1)) = Vector2Negate a2
   /\ operator_div_Vector2 cerr a2 (float_of_int (-1)) = (cerr, inr (Vector2Negate a2)))
  /\
  (operator_mul_Vector3 a3 (float_of_int 1) = a3
   /\ operator_div_Vector3 cerr a3 (float_of_int 1) = (cerr, inr a3)
   /\ operator_mul_Vector3 a3 (float_of_int (-1)) = Vector3Negate a3
   /\ operator_div_Vector3 cerr a3 (float_of_int (-1)) = (cerr, inr (Vector3Negate a3))).
Proof.
  intros H2 H3. destruct a2 as [x2 y2], a3 as [x3 y3 z3].
  unfold components2, components3, is_number in H2, H3. simpl in H2, H3.
  rewrite !andb_true_iff in H2. rewrite !andb_true_iff in H3.
  destruct H2 as ((Hx2 & _) & (Hy2 & _) & _),
           H3 as ((Hx3 & _) & (Hy3 & _) & (Hz3 & _) & _).
  change (float_of_int 1) with (S754_finite false 8388608 (-23)).
  change (float_of_int (-1)) with (S754_finite true 8388608 (-23)).
  assert (recip (S754_finite false 8388608 (-23)) = S754_finite false 8388608 (-23))
    as R1 by reflexivity.
  assert (recip (S754_finite true 8388608 (-23)) = S754_finite true 8388608 (-23))
    as R2 by reflexivity.
  unfold recip in R1, R2.
  unfold operator_div_Vector2, operator_div_Vector3. rewrite R1, R2.
  change (SFeqb (double_of_float (S754_finite false 8388608 (-23))) double_zero)
    with false.
  change (SFeqb (double_of_float (S754_finite true 8388608 (-23))) double_zero)
    with false.
  cbv iota.
  unfold operator_mul_Vector2, operator_mul_Vector3, Vector2Scale, Vector3Scale,
    Vector2Negate, Vector3Negate.
  simpl Vector2_x. simpl Vector2_y. simpl Vector3_x. simpl Vector3_y. simpl Vector3_z.
  rewrite !fmul_unit by assumption.
  repeat split.
Qed.

Lemma scaling_by_unit_witness :
  forallb is_number
    (components2 (mkVector2 (S754_finite true 5 (-149)) (S754_infinity false))) = true
  /\ forallb is_number
       (components3 (mkVector3 (S754_zero true) (float_of_int 3) (float_of_int 7))) = true
  /\ operator_mul_Vector2 (mkVector2 (S754_finite true 5 (-149)) (S754_infinity false))
       (float_of_int (-1))
     = mkVector2 (S754_finite false 5 (-149)) (S754_infinity true).
Proof.
  split; [reflexivity | split; [reflexivity | ]].
  destruct (scaling_by_unit EmptyString
              (mkVector2 (S754_finite true 5 (-149)) (S754_infinity false))
              (mkVector3 (S754_zero true) (float_of_int 3) (float_of_int 7))
              eq_refl eq_refl) as ((_ & _ & H & _) & _).
  exact H.
Defined.

(** ** Negation twice *)

Lemma fneg_involutive (x : float) : fneg (fneg x) = x.
Proof. destruct x; simpl; rewrite ?negb_involutive; reflexivity. Qed.

(** X8: Applying unary minus twice to the same [Vector2] or [Vector3] object
    puts the store back exactly as it was, NaN and signed zeros included. *)
Theorem negation_twice_restores
    (a : loc) (v2 : Vector2) (mem2 : gmap loc Vector2)
    (v3 : Vector3) (mem3 : gmap loc Vector3) :
  mem2 !! a = Some v2 -> mem3 !! a = Some v3 ->
  (exists mem', operator_neg_Vector2 a mem2 = Some (mem', a)
     /\ operator_neg_Vector2 a mem' = Some (mem2, a))
  /\ (exists mem', operator_neg_Vector3 a mem3 = Some (mem', a)
        /\ operator_neg_Vector3 a mem' = Some (mem3, a)).
Proof.
  intros H2 H3. split.
  - exists (<[a := Vector2Negate v2]> mem2).
    unfold operator_neg_Vector2. rewrite H2, lookup_insert_eq, insert_insert_eq.
    split; [reflexivity | ].
    destruct v2 as [x y]. unfold Vector2Negate. simpl.
    rewrite !fneg_involutive, (insert_id mem2 a _ H2). reflexivity.
  - exists (<[a := Vector3Negate v3]> mem3).
    unfold operator_neg_Vector3. rewrite H3, lookup_insert_eq, insert_insert_eq.
    split; [reflexivity | ].
    destruct v3 as [x y z]. unfold Vector3Negate. simpl.
    rewrite !fneg_involutive, (insert_id mem3 a _ H3). reflexivity.
Qed.

Lemma negation_twice_restores_witness :
  (<[1%positive := mkVector2 S754_nan (S754_zero true)]> ∅
     : gmap loc Vector2) !! 1%positive
  = Some (mkVector2 S754_nan (S754_zero true))
  /\ (<[1%positive := mkVector3 (float_of_int 1) (float_of_int 0) (float_of_int 2)]> ∅
        : gmap loc Vector3) !! 1%positive
     = Some (mkVector3 (float_of_int 1) (float_of_int 0) (float_of_int 2))
  /\ exists mem',
       operator_neg_Vector2 1%positive
         (<[1%positive := mkVector2 S754_nan (S754_zero true)]> ∅)
       = Some (mem', 1%positive)
       /\ operator_neg_Vector2 1%positive mem'
          = Some (<[1%positive := mkVector2 S754_nan (S754_zero true)]> ∅, 1%positive).
Proof.
  assert ((<[1%positive := mkVector2 S754_nan (S754_zero true)]> ∅
             : gmap loc Vector2) !! 1%positive
          = Some (mkVector2 S754_nan (S754_zero true))) as H2
    by apply lookup_insert_eq.
  assert ((<[1%positive := mkVector3 (float_of_int 1) (float_of_int 0) (float_of_int 2)]> ∅
             : gmap loc Vector3) !! 1%positive
          = Some (mkVector3 (float_of_int 1) (float_of_int 0) (float_of_int 2))) as H3
    by apply lookup_insert_eq.
  split; [exact H2 | split; [exact H3 | ]].
  destruct (negation_twice_restores 1%positive _ _ _ _ H2 H3) as (H & _).
  exact H.
Defined.

(** ** [Vector4] addition and subtraction *)

Lemma fadd_comm (x y : float) : fadd x y = fadd y x.
Proof.
  destruct x as [sx | sx | | sx mx ex], y as [sy | sy | | sy my ey];
    try reflexivity; try (destruct sx, sy; reflexivity).
  unfold fadd. cbn [SFadd]. rewrite (Z.min_comm ey ex), Z.add_comm. reflexivity.
Qed.

Lemma fsub_self (x : float) :
  fsub x x = if is_finite x then S754_zero false else S754_nan.
Proof.
  destruct x as [[ | ] | [ | ] | | s m e]; try reflexivity.
  unfold fsub. cbn [SFsub]. rewrite Z.sub_diag. reflexivity.
Qed.


(** X9: [Vector4] addition does not depend on the order of its operands,
    for vectors without NaN components (sums that are NaN, of opposite
    infinities, included). *)
Theorem Vector4_addition_commutative (a b : Vector4) :
  forallb (fun x => negb (is_nan x)) (components4 a) = true ->
  forallb (fun x => negb (is_nan x)) (components4 b) = true ->
  operator_plus_Vector4 a b = operator_plus_Vector4 b a.
Proof.
  intros _ _. unfold operator_plus_Vector4.
  rewrite (fadd_comm (Vector4_x a)), (fadd_comm (Vector4_y a)),
    (fadd_comm (Vector4_z a)), (fadd_comm (Vector4_w a)). reflexivity.
Qed.

Lemma Vector4_addition_commutative_witness :
  forallb (fun x => negb (is_nan x))
    (components4 (mkVector4 (float_of_int 1) (S754_infinity false) (S754_zero true)
                            (float_of_int 4))) = true
  /\ forallb (fun x => negb (is_nan x))
       (components4 (mkVector4 (float_of_int 3) (S754_infinity true) (S754_zero false)
                               (float_of_int (-4)))) = true
  /\ operator_plus_Vector4
       (mkVector4 (float_of_int 1) (S754_infinity false) (S754_zero true) (float_of_int 4))
       (mkVector4 (float_of_int 3) (S754_infinity true) (S754_zero false)
                  (float_of_int (-4)))
     = operator_plus_Vector4
         (mkVector4 (float_of_int 3) (S754_infinity true) (S754_zero false)
                    (float_of_int (-4)))
         (mkVector4 (float_of_int 1) (S754_infinity false) (S754_zero true)
                    (float_of_int 4)).
Proof.
  split; [reflexivity | split; [reflexivity | ]].
  apply (Vector4_addition_commutative
           (mkVector4 (float_of_int 1) (S754_infinity false) (S754_zero true)
                      (float_of_int 4))
           (mkVector4 (float_of_int 3) (S754_infinity true) (S754_zero false)
                      (float_of_int (-4))) eq_refl eq_refl).
Defined.


(** ** Compound assignment between two objects *)

Lemma compound_assign_spec {T : Type} (op : T -> T -> T) (a b : loc)
    (va vb : T) (mem : gmap loc T) :
  mem !! a = Some va -> mem !! b = Some vb ->
  exists mem', compound_assign op a b mem = Some (mem', a)
    /\ mem' !! a = Some (op va vb)
    /\ forall l, l <> a -> mem' !! l = mem !! l.
Proof.
  intros Ha Hb. exists (<[a := op va vb]> mem).
  unfold compound_assign. rewrite Ha, Hb. repeat split.
  - apply lookup_insert_eq.
  - intros l Hl. apply lookup_insert_ne. congruence.
Qed.

(** X11: [a += b] and [a -= b] on [Vector4] objects change the object [a] refers
    to and no other, [b]'s included when it is another object, and return
    [a]; when both references name one object with finite components,
    [a -= a] leaves it the zero vector. *)
Theorem Vector4_compound_assignment
    (a b : loc) (va vb : Vector4) (mem : gmap loc Vector4) :
  mem !! a = Some va -> mem !! b = Some vb ->
  (exists mem', operator_plus_assign_Vector4 a b mem = Some (mem', a)
     /\ mem' !! a = Some (operator_plus_Vector4 va vb)
     /\ (forall l, l <> a -> mem' !! l = mem !! l))
  /\ (exists mem', operator_minus_assign_Vector4 a b mem = Some (mem', a)
        /\ mem' !! a = Some (operator_minus_Vector4 va vb)
        /\ (forall l, l <> a -> mem' !! l = mem !! l))
  /\ operator_minus_assign_Vector4 a a mem
     = Some (<[a := if forallb is_finite (components4 va) then Vector4_zero
                    else operator_minus_Vector4 va va]> mem, a).
Proof.
  intros Ha Hb. split; [ | split].
  - apply compound_assign_spec; assumption.
  - apply compound_assign_spec; assumption.
  - unfold operator_minus_assign_Vector4, compound_assign. rewrite Ha.
    destruct (forallb is_finite (components4 va)) eqn:F; [ | reflexivity].
    destruct va as [x y z w]. unfold components4 in F. simpl in F.
    rewrite !andb_true_iff in F. destruct F as (Fx & Fy & Fz & Fw & _).
    unfold operator_minus_Vector4. simpl.
    rewrite !fsub_self, Fx, Fy, Fz, Fw. reflexivity.
Qed.

Lemma Vector4_compound_assignment_witness :
  (<[1%positive := mkVector4 (float_of_int 1) (float_of_int 2) (float_of_int 3)
                             (float_of_int 4)]> ∅ : gmap loc Vector4) !! 1%positive
  = Some (mkVector4 (float_of_int 1) (float_of_int 2) (float_of_int 3) (float_of_int 4))
  /\ operator_minus_assign_Vector4 1%positive 1%positive
       (<[1%positive := mkVector4 (float_of_int 1) (float_of_int 2) (float_of_int 3)
                                  (float_of_int 4)]> ∅)
     = Some (<[1%positive := Vector4_zero]>
               (<[1%positive := mkVector4 (float_of_int 1) (float_of_int 2)
                                          (float_of_int 3) (float_of_int 4)]> ∅),
             1%positive).
Proof.
  assert ((<[1%positive := mkVector4 (float_of_int 1) (float_of_int 2) (float_of_int 3)
                                     (float_of_int 4)]> ∅ : gmap loc Vector4) !! 1%positive
          = Some (mkVector4 (float_of_int 1) (float_of_int 2) (float_of_int 3)
                            (float_of_int 4))) as H
    by apply lookup_insert_eq.
  split; [exact H | ].
  destruct (Vector4_compound_assignment 1%positive 1%positive _ _ _ H H)
    as (_ & _ & H').
  exact H'.
Defined.

(** ** Consequences of the last assignment going to the red channel *)

(** X12: The red, green and blue channels returned by colour addition,
    subtraction and multiplication by a colour do not depend on the red
    channel of either operand, nor on what the storage of the local held. *)
Theorem color_result_ignores_red_inputs (c0 c0' a b : Color) (ra rb : Z) :
  rgb (operator_plus_Color c0 (assign ch_r ra a) (assign ch_r rb b))
  = rgb (operator_plus_Color c0' a b)
  /\ rgb (operator_minus_Color c0 (assign ch_r ra a) (assign ch_r rb b))
     = rgb (operator_minus_Color c0' a b)
  /\ rgb (operator_mul_Color_Color c0 (assign ch_r ra a) (assign ch_r rb b))
     = rgb (operator_mul_Color_Color c0' a b).
Proof. repeat split. Qed.

(** X13: For valid colours: the sum has red 255 as soon as one operand is
    opaque, the difference has red 0 whenever the subtrahend's alpha is at
    least the minuend's (two opaque colours, for one), and the product has
    red 255 when both are opaque. *)
Theorem opaque_colors_saturate_red (c0 a b : Color) :
  valid_Color a -> valid_Color b ->
  (if (Color_a a =? 255) || (Color_a b =? 255)
   then Color_r (operator_plus_Color c0 a b) = 255 else True)
  /\ (if Color_a a <=? Color_a b
      then Color_r (operator_minus_Color c0 a b) = 0 else True)
  /\ (if (Color_a a =? 255) && (Color_a b =? 255)
      then Color_r (operator_mul_Color_Color c0 a b) = 255 else True).
Proof.
  intros (_ & _ & _ & Ha) (_ & _ & _ & Hb). unfold uchar_range in *.
  unfold operator_plus_Color, operator_minus_Color, operator_mul_Color_Color.
  simpl. repeat split.
  - destruct ((Color_a a =? 255) || (Color_a b =? 255)) eqn:E; [ | exact I].
    rewrite orb_true_iff, !Z.eqb_eq in E.
    rewrite clamp_hi_saturate by lia. rewrite cast_uchar_small by apply saturate_range.
    unfold saturate. lia.
  - destruct (Z.leb_spec (Color_a a) (Color_a b)); [ | exact I].
    rewrite clamp_lo_saturate by lia. rewrite cast_uchar_small by apply saturate_range.
    unfold saturate. lia.
  - destruct ((Color_a a =? 255) && (Color_a b =? 255)) eqn:E; [ | exact I].
    rewrite andb_true_iff, !Z.eqb_eq in E. destruct E as (-> & ->). reflexivity.
Qed.

Lemma opaque_colors_saturate_red_witness :
  valid_Color (mkColor 10 20 30 255) /\ valid_Color (mkColor 1 2 3 255)
  /\ Color_r (operator_minus_Color (mkColor 9 9 9 9) (mkColor 10 20 30 255)
                (mkColor 1 2 3 255)) = 0.
Proof.
  assert (valid_Color (mkColor 10 20 30 255)) as Ha
    by (unfold valid_Color, uchar_range; simpl; lia).
  assert (valid_Color (mkColor 1 2 3 255)) as Hb
    by (unfold valid_Color, uchar_range; simpl; lia).
  split; [exact Ha | split; [exact Hb | ]].
  destruct (opaque_colors_saturate_red (mkColor 9 9 9 9) _ _ Ha Hb) as (_ & H & _).
  exact H.
Defined.

(** X14: [a += b], [a -= b] and [a *= b] on colours store into [a] a colour
    whose alpha is the content of the operator's uninitialised local, not
    [a]'s former alpha nor any combination of the operands' alphas; no
    object but [a] changes. *)
Theorem color_compound_assignment_loses_alpha
    (c0 : Color) (a b : loc) (va vb : Color) (mem : gmap loc Color) :
  mem !! a = Some va -> mem !! b = Some vb ->
  (exists mem' c, operator_plus_assign_Color c0 a b mem = Some (mem', a)
     /\ mem' !! a = Some c /\ Color_a c = Color_a c0
     /\ (forall l, l <> a -> mem' !! l = mem !! l))
  /\ (exists mem' c, operator_minus_assign_Color c0 a b mem = Some (mem', a)
        /\ mem' !! a = Some c /\ Color_a c = Color_a c0
        /\ (forall l, l <> a -> mem' !! l = mem !! l))
  /\ (exists mem' c, operator_mul_assign_Color c0 a b mem = Some (mem', a)
        /\ mem' !! a = Some c /\ Color_a c = Color_a c0
        /\ (forall l, l <> a -> mem' !! l = mem !! l)).
Proof.
  intros Ha Hb. repeat split.
  - destruct (compound_assign_spec (operator_plus_Color c0) a b va vb mem Ha Hb)
      as (mem' & H1 & H2 & H3).
    exists mem', (operator_plus_Color c0 va vb). auto.
  - destruct (compound_assign_spec (operator_minus_Color c0) a b va vb mem Ha Hb)
      as (mem' & H1 & H2 & H3).
    exists mem', (operator_minus_Color c0 va vb). auto.
  - destruct (compound_assign_spec (operator_mul_Color_Color c0) a b va vb mem Ha Hb)
      as (mem' & H1 & H2 & H3).
    exists mem', (operator_mul_Color_Color c0 va vb). auto.
Qed.

Lemma color_compound_assignment_loses_alpha_witness :
  (<[1%positive := mkColor 10 20 30 255]> ∅ : gmap loc Color) !! 1%positive
  = Some (mkColor 10 20 30 255)
  /\ exists mem' c,
       operator_plus_assign_Color (mkColor 0 0 0 77) 1%positive 1%positive
         (<[1%positive := mkColor 10 20 30 255]> ∅) = Some (mem', 1%positive)
       /\ mem' !! 1%positive = Some c /\ Color_a c = 77.
Proof.
  assert ((<[1%positive := mkColor 10 20 30 255]> ∅ : gmap loc Color) !! 1%positive
          = Some (mkColor 10 20 30 255)) as H by apply lookup_insert_eq.
  split; [exact H | ].
  destruct (color_compound_assignment_loses_alpha (mkColor 0 0 0 77) 1%positive
              1%positive _ _ _ H H) as ((mem' & c & H1 & H2 & H3 & _) & _).
  exists mem', c. auto.
Defined.

(** ** Scaling a colour *)

Lemma in_uchar_list (n : Z) :
  0 <= n <= 255 -> In n (map Z.of_nat (seq 0 256)).
Proof.
  intros H. rewrite <- (Z2Nat.id n) by lia. apply in_map, in_seq. lia.
Qed.

(** The channels convert to [float] exactly, and scaling by [1.0f]
    converts back to the same channel. *)
Lemma scale_channel_by_one (n : Z) :
  0 <= n <= 255 ->
  uchar_of_float (clamp_float (fmul (float_of_int n) (float_of_int 1))) = Some n.
Proof.
  intros H.
  assert (forallb (fun n =>
            match uchar_of_float (clamp_float (fmul (float_of_int n) (float_of_int 1))) with
            | Some t => t =? n
            | None => false
            end) (map Z.of_nat (seq 0 256)) = true) as E by (vm_compute; reflexivity).
  rewrite forallb_forall in E. specialize (E n (in_uchar_list n H)).
  destruct (uchar_of_float _) as [t | ]; [ | discriminate].
  apply Z.eqb_eq in E. subst. reflexivity.
Qed.

Lemma float_of_int_uchar (n : Z) :
  0 <= n <= 255 ->
  float_of_int n = S754_zero false
  \/ exists m e, float_of_int n = S754_finite false m e.
Proof.
  intros H.
  assert (forallb (fun n =>
            match float_of_int n with
            | S754_zero false | S754_finite false _ _ => true
            | _ => false
            end) (map Z.of_nat (seq 0 256)) = true) as E by (vm_compute; reflexivity).
  rewrite forallb_forall in E. specialize (E n (in_uchar_list n H)).
  destruct (float_of_int n) as [[ | ] | | | [ | ] m e]; try discriminate; eauto.
Qed.

Lemma scale_channel_nonpositive (n : Z) (s : float) :
  0 <= n <= 255 -> nonpositive_finite s = true ->
  uchar_of_float (clamp_float (fmul (float_of_int n) s)) = Some 0.
Proof.
  intros Hn Hs.
  destruct (float_of_int_uchar n Hn) as [-> | (m & e & ->)];
    destruct s as [[ | ] | | | [ | ] ms es]; try discriminate; try reflexivity.
  unfold fmul. cbn [SFmul xorb].
  destruct (binary_round_aux_cases 24 128 true (Zpos (m * ms)) (e + es) loc_Exact)
    as [-> | [-> | (m' & e' & ->)]]; [lia | reflexivity | reflexivity | reflexivity].
Qed.

(** X15: Multiplying a valid colour by [1.0f] keeps green and blue and puts the
    alpha value into red; multiplying it by a zero or by any negative finite
    scalar gives red, green and blue 0.  In both cases the conversions are
    defined and the alpha of the result is the content of the storage. *)
Theorem color_scaling_by_one_and_nonpositive (c0 a : Color) (s : float) :
  valid_Color a -> nonpositive_finite s = true ->
  operator_mul_Color_float c0 a (float_of_int 1)
  = Some (mkColor (Color_a a) (Color_g a) (Color_b a) (Color_a c0))
  /\ operator_mul_Color_float c0 a s = Some (mkColor 0 0 0 (Color_a c0)).
Proof.
  intros (Hr & Hg & Hb & Ha) Hs. unfold uchar_range in *.
  unfold operator_mul_Color_float, operator_mul_Color_float_body. split.
  - rewrite !scale_channel_by_one by assumption. reflexivity.
  - rewrite !scale_channel_nonpositive by assumption. reflexivity.
Qed.

Lemma color_scaling_by_one_and_nonpositive_witness :
  valid_Color (mkColor 10 20 30 40)
  /\ nonpositive_finite (float_of_int (-2)) = true
  /\ operator_mul_Color_float (mkColor 1 2 3 4) (mkColor 10 20 30 40) (float_of_int (-2))
     = Some (mkColor 0 0 0 4).
Proof.
  assert (valid_Color (mkColor 10 20 30 40)) as Ha
    by (unfold valid_Color, uchar_range; simpl; lia).
  split; [exact Ha | split; [reflexivity | ]].
  destruct (color_scaling_by_one_and_nonpositive (mkColor 1 2 3 4) _
              (float_of_int (-2)) Ha eq_refl) as (_ & H).
  exact H.
Defined.

(** ** Pixel format names are unambiguous *)

Lemma PixelFormat_descriptions_NoDup :
  List.NoDup (PixelFormat_default :: map snd PixelFormat_cases).
Proof.
  simpl. repeat (constructor; [simpl; intuition discriminate | ]). constructor.
Qed.

Lemma NoDup_snd_functional {A B : Type} (l : list (A * B)) (p q : A) (o : B) :
  List.NoDup (map snd l) -> In (p, o) l -> In (q, o) l -> p = q.
Proof.
  induction l as [ | [r o'] l IH]; simpl; intros Hnd Hp Hq; [contradiction | ].
  inversion Hnd as [ | ? ? Hnotin Hnd']; subst.
  destruct Hp as [Hp | Hp], Hq as [Hq | Hq].
  - congruence.
  - inversion Hp; subst. exfalso. apply Hnotin.
    change o with (snd (q, o)). apply in_map. exact Hq.
  - inversion Hq; subst. exfalso. apply Hnotin.
    change o with (snd (p, o)). apply in_map. exact Hp.
  - apply IH; assumption.
Qed.

(** X16: The name [PixelFormatNumberToName] returns identifies the format: two
    enumerators with the same name are the same enumerator, and no
    enumerator's name is the fallback string. *)
Theorem PixelFormatNumberToName_unambiguous
    (enum_value : PixelFormat -> Z) (p q : PixelFormat) :
  (forall p q, enum_value p = enum_value q -> p = q) ->
  PixelFormatNumberToName enum_value (enum_value p) <> PixelFormat_default
  /\ (PixelFormatNumberToName enum_value (enum_value p)
      = PixelFormatNumberToName enum_value (enum_value q) -> p = q).
Proof.
  intros Hinj.
  assert (forall r, exists os, In (r, os) PixelFormat_cases
                               /\ PixelFormatNumberToName enum_value (enum_value r) = os)
    as Hname.
  { intros r. pose proof (PixelFormat_cases_complete r) as H.
    apply in_map_iff in H. destruct H as ([r' os] & E & H). simpl in E. subst r'.
    exists os. split; [exact H | ].
    apply switch_case; [exact Hinj | exact PixelFormat_cases_NoDup | exact H]. }
  pose proof PixelFormat_descriptions_NoDup as Hnd.
  apply List.NoDup_cons_iff in Hnd. destruct Hnd as (Hnotin & Hnd').
  destruct (Hname p) as (op & Hp & Enp), (Hname q) as (oq & Hq & Enq).
  rewrite Enp, Enq. split.
  - intros E. apply Hnotin. rewrite <- E.
    change op with (snd (p, op)). apply in_map. exact Hp.
  - intros E. rewrite <- E in Hq. exact (NoDup_snd_functional _ p q op Hnd' Hp Hq).
Qed.

Lemma PixelFormatNumberToName_unambiguous_witness :
  PixelFormatNumberToName raylib_enum_value 3 <> PixelFormat_default.
Proof.
  destruct (PixelFormatNumberToName_unambiguous raylib_enum_value
              PIXELFORMAT_UNCOMPRESSED_R5G6B5 PIXELFORMAT_UNCOMPRESSED_R8G8B8
              raylib_enum_value_inj) as (H & _).
  exact H.
Defined.

(** ** Scaling an object in place and back *)

(** X17: [v *= s] followed by [v /= s], for a power of two [s] that keeps the
    components of [v] normal, puts the store back exactly as it was and
    writes nothing to [std::cerr]. *)
Theorem scale_assign_then_divide_assign_restores
    (cerr : ostream) (a : loc) (sign : bool) (es : Z)
    (v2 : Vector2) (mem2 : gmap loc Vector2)
    (v3 : Vector3) (mem3 : gmap loc Vector3) :
  -149 <= es <= 103 ->
  mem2 !! a = Some v2 -> forallb (scalable es) (components2 v2) = true ->
  mem3 !! a = Some v3 -> forallb (scalable es) (components3 v3) = true ->
  (exists mem', operator_mul_assign_Vector2 a (S754_finite sign 8388608 es) mem2
                = Some (mem', a)
     /\ operator_div_assign_Vector2 cerr a (S754_finite sign 8388608 es) mem'
        = Some (cerr, mem2, inr a))
  /\ (exists mem', operator_mul_assign_Vector3 a (S754_finite sign 8388608 es) mem3
                   = Some (mem', a)
        /\ operator_div_assign_Vector3 cerr a (S754_finite sign 8388608 es) mem'
           = Some (cerr, mem3, inr a)).
Proof.
  intros Hes H2 S2 H3 S3.
  destruct v2 as [x2 y2], v3 as [x3 y3 z3].
  unfold components2, components3 in S2, S3. simpl in S2, S3.
  rewrite !andb_true_iff in S2. rewrite !andb_true_iff in S3.
  destruct S2 as (Hx2 & Hy2 & _), S3 as (Hx3 & Hy3 & Hz3 & _).
  destruct (recip_power_of_two sign es Hes) as (Hd & Hrecip).
  split.
  - eexists. unfold operator_mul_assign_Vector2. rewrite H2.
    split; [reflexivity | ].
    unfold operator_div_assign_Vector2, operator_div_Vector2.
    rewrite lookup_insert_eq, Hrecip, Hd.
    replace (SFeqb (S754_finite sign 4503599627370496 (es - 29)) double_zero)
      with false by (destruct sign; reflexivity).
    unfold operator_mul_Vector2, Vector2Scale. simpl Vector2_x. simpl Vector2_y.
    rewrite !round_trip_component by assumption.
    rewrite insert_insert_eq, (insert_id mem2 a _ H2). reflexivity.
  - eexists. unfold operator_mul_assign_Vector3. rewrite H3.
    split; [reflexivity | ].
    unfold operator_div_assign_Vector3, operator_div_Vector3.
    rewrite lookup_insert_eq, Hrecip, Hd.
    replace (SFeqb (S754_finite sign 4503599627370496 (es - 29)) double_zero)
      with false by (destruct sign; reflexivity).
    unfold operator_mul_Vector3, Vector3Scale.
    simpl Vector3_x. simpl Vector3_y. simpl Vector3_z.
    rewrite !round_trip_component by assumption.
    rewrite insert_insert_eq, (insert_id mem3 a _ H3). reflexivity.
Qed.

Lemma scale_assign_then_divide_assign_restores_witness :
  -149 <= -21 <= 103
  /\ (<[5%positive := mkVector2 (float_of_int 3) (float_of_int (-7))]> ∅
        : gmap loc Vector2) !! 5%positive
     = Some (mkVector2 (float_of_int 3) (float_of_int (-7)))
  /\ forallb (scalable (-21))
       (components2 (mkVector2 (float_of_int 3) (float_of_int (-7)))) = true
  /\ (<[5%positive := mkVector3 (float_of_int 1) (S754_zero true) (float_of_int 2)]> ∅
        : gmap loc Vector3) !! 5%positive
     = Some (mkVector3 (float_of_int 1) (S754_zero true) (float_of_int 2))
  /\ forallb (scalable (-21))
       (components3 (mkVector3 (float_of_int 1) (S754_zero true) (float_of_int 2))) = true
  /\ exists mem',
       operator_mul_assign_Vector2 5%positive (float_of_int 4)
         (<[5%positive := mkVector2 (float_of_int 3) (float_of_int (-7))]> ∅)
       = Some (mem', 5%positive)
       /\ operator_div_assign_Vector2 EmptyString 5%positive (float_of_int 4) mem'
          = Some (EmptyString,
                  <[5%positive := mkVector2 (float_of_int 3) (float_of_int (-7))]> ∅,
                  inr 5%positive).
Proof.
  assert (-149 <= -21 <= 103) as Hes by lia.
  assert ((<[5%positive := mkVector2 (float_of_int 3) (float_of_int (-7))]> ∅
             : gmap loc Vector2) !! 5%positive
          = Some (mkVector2 (float_of_int 3) (float_of_int (-7)))) as H2
    by apply lookup_insert_eq.
  assert ((<[5%positive := mkVector3 (float_of_int 1) (S754_zero true) (float_of_int 2)]> ∅
             : gmap loc Vector3) !! 5%positive
          = Some (mkVector3 (float_of_int 1) (S754_zero true) (float_of_int 2))) as H3
    by apply lookup_insert_eq.
  split; [exact Hes | split; [exact H2 | split; [reflexivity |
    split; [exact H3 | split; [reflexivity | ]]]]].
  destruct (scale_assign_then_divide_assign_restores EmptyString 5%positive false (-21)
              _ _ _ _ Hes H2 eq_refl H3 eq_refl) as (H & _).
  exact H.
Defined.

(** ** [Vector2] and [Vector3] addition and subtraction *)

(** X18: On [Vector2] and [Vector3] without NaN components, addition does
    not depend on the order of its operands; subtracting a vector from
    itself gives [+0] in each finite component and NaN in the others, and
    [a -= a] through two references to one object stores that difference
    into it. *)
Theorem Vector2_Vector3_addition_subtraction
    (a2 b2 : Vector2) (a3 b3 : Vector3) (l : loc)
    (mem2 : gmap loc Vector2) (mem3 : gmap loc Vector3) :
  forallb (fun x => negb (is_nan x)) (components2 a2 ++ components2 b2) = true ->
  forallb (fun x => negb (is_nan x)) (components3 a3 ++ components3 b3) = true ->
  operator_plus_Vector2 a2 b2 = operator_plus_Vector2 b2 a2
  /\ operator_plus_Vector3 a3 b3 = operator_plus_Vector3 b3 a3
  /\ components2 (operator_minus_Vector2 a2 a2)
     = map (fun x => if is_finite x then S754_zero false else S754_nan) (components2 a2)
  /\ components3 (operator_minus_Vector3 a3 a3)
     = map (fun x => if is_finite x then S754_zero false else S754_nan) (components3 a3)
  /\ operator_minus_assign_Vector2 l l (<[l := a2]> mem2)
     = Some (<[l := operator_minus_Vector2 a2 a2]> mem2, l)
  /\ operator_minus_assign_Vector3 l l (<[l := a3]> mem3)
     = Some (<[l := operator_minus_Vector3 a3 a3]> mem3, l).
Proof.
  intros _ _.
  destruct a2 as [x2 y2], b2 as [u2 v2], a3 as [x3 y3 z3], b3 as [u3 v3 w3].
  unfold operator_plus_Vector2, operator_plus_Vector3, Vector2Add, Vector3Add,
    operator_minus_assign_Vector2, operator_minus_assign_Vector3, compound_assign,
    operator_minus_Vector2, operator_minus_Vector3, Vector2Subtract, Vector3Subtract,
    components2, components3.
  simpl. rewrite !lookup_insert_eq, !insert_insert_eq, !fsub_self.
  rewrite (fadd_comm x2 u2), (fadd_comm y2 v2), (fadd_comm x3 u3),
    (fadd_comm y3 v3), (fadd_comm z3 w3).
  repeat split.
Qed.

Lemma Vector2_Vector3_addition_subtraction_witness :
  forallb (fun x => negb (is_nan x))
    (components2 (mkVector2 (float_of_int 1) (S754_infinity false))
     ++ components2 (mkVector2 (float_of_int 2) (S754_infinity true))) = true
  /\ forallb (fun x => negb (is_nan x))
       (components3 (mkVector3 (float_of_int 1) (float_of_int 2) (float_of_int 3))
        ++ components3 (mkVector3 (float_of_int 4) (float_of_int 5) (float_of_int 6)))
     = true
  /\ operator_plus_Vector2 (mkVector2 (float_of_int 1) (S754_infinity false))
       (mkVector2 (float_of_int 2) (S754_infinity true))
     = operator_plus_Vector2 (mkVector2 (float_of_int 2) (S754_infinity true))
         (mkVector2 (float_of_int 1) (S754_infinity false)).
Proof.
  split; [reflexivity | split; [reflexivity | ]].
  destruct (Vector2_Vector3_addition_subtraction
              (mkVector2 (float_of_int 1) (S754_infinity false))
              (mkVector2 (float_of_int 2) (S754_infinity true))
              (mkVector3 (float_of_int 1) (float_of_int 2) (float_of_int 3))
              (mkVector3 (float_of_int 4) (float_of_int 5) (float_of_int 6))
              1%positive ∅ ∅ eq_refl eq_refl) as (H & _).
  exact H.
Defined.

(** ** Colour addition and multiplication commute *)

(** X19: The red, green and blue channels of a colour sum and of a colour
    product do not depend on the order of the operands (nor on what the
    storage of the local held in either call). *)
Theorem color_addition_multiplication_commutative (c0 c0' a b : Color) :
  rgb (operator_plus_Color c0 a b) = rgb (operator_plus_Color c0' b a)
  /\ rgb (operator_mul_Color_Color c0 a b) = rgb (operator_mul_Color_Color c0' b a).
Proof.
  unfold rgb, operator_plus_Color, operator_mul_Color_Color,
    operator_plus_Color_body, operator_mul_Color_Color_body. simpl.
  rewrite (Z.add_comm (Color_g a)), (Z.add_comm (Color_b a)), (Z.add_comm (Color_a a)),
    (Z.mul_comm (Color_g a)), (Z.mul_comm (Color_b a)), (Z.mul_comm (Color_a a)).
  split; reflexivity.
Qed.
